(** * Performance metrics of [UTILS/performance_metrics.py]

    A shallow embedding of the metric library: regression errors,
    classification accuracy and the hand-written concordance index.

    The Python functions work on NumPy arrays.  The embedding keeps the
    structure of the source:
    - an array is a shape together with its row-major data ([ndarray]);
      [ravel] flattens it;
    - a call either returns a value or raises ([result]);
    - the element type is abstract ([Dtype]) and is instantiated twice:
      with IEEE binary64 numbers ([float], executable, with NaN and the
      infinities) and with real numbers ([R], for the algebraic laws).

    [r_squared] and [c_index] only forward their arguments to
    scikit-learn's [r2_score] and to lifelines' [concordance_index];
    they are not part of the embedding. *)

From Stdlib Require Import List ZArith Bool Arith Lia.
From Stdlib Require Import Floats.
From Stdlib Require Import Reals Lra.
Import ListNotations.

Set Implicit Arguments.

(** ** Exceptions *)

Inductive exn : Set :=
| IndexError   (* mask or index does not fit the indexed axis; indexing a scalar *)
| ValueError   (* shapes that do not broadcast; ragged nested sequence *)
| TypeError    (* float() of an array that does not hold exactly one element *)
| KeyError.    (* keyword argument missing from kwargs *)

Inductive result (A : Type) : Type :=
| Ok (a : A)
| Raise (e : exn).

Arguments Ok {A} a.
Arguments Raise {A} e.

Definition bind {A B : Type} (m : result A) (k : A -> result B) : result B :=
  match m with
  | Ok a => k a
  | Raise e => Raise e
  end.

Notation "x <- m ;; k" := (bind m (fun x => k))
  (at level 61, m at next level, right associativity).

Fixpoint mapM {A B : Type} (f : A -> result B) (l : list A) : result (list B) :=
  match l with
  | [] => Ok []
  | a :: l' => b <- f a ;; bs <- mapM f l' ;; Ok (b :: bs)
  end.

(** ** Element types *)

(** The operations the metrics need from the array element type.
    [of_count] converts a count of samples (the sum of an array of
    [0.]/[1.] or of booleans); [frint] is [np.around]/[np.round] with
    zero decimals; [to_int64]/[of_int64] are [astype(int)] and the
    promotion of an integer back in a comparison with a float;
    [to_float32] is [astype(np.float32)], kept in the same carrier. *)
Class Dtype (T : Type) : Type := {
  fadd : T -> T -> T;
  fsub : T -> T -> T;
  fmul : T -> T -> T;
  fdiv : T -> T -> T;
  fsqrt : T -> T;
  fabs : T -> T;
  frint : T -> T;
  of_count : nat -> T;
  of_int64 : Z -> T;
  to_int64 : T -> Z;
  to_float32 : T -> T;
  feqb : T -> T -> bool;
  fltb : T -> T -> bool
}.

(** Iteration order of a Python [set] built from a sequence. *)
Class SetOrder (T : Type) : Type := {
  py_set : list T -> list T
}.

(** ** Arrays *)

Record ndarray (A : Type) : Type := mk_ndarray {
  shape : list nat;
  data : list A
}.

Definition size_of (sh : list nat) : nat := fold_right Nat.mul 1 sh.

(** A well-formed array holds as many elements as its shape says. *)
Definition wf_ndarray {A : Type} (a : ndarray A) : Prop :=
  length (data a) = size_of (shape a).

(** One-dimensional array. *)
Definition vec {A : Type} (xs : list A) : ndarray A :=
  {| shape := [length xs]; data := xs |}.

(** [a.ravel()]: the elements in row-major order, as a one-dimensional
    array (a list). *)
Definition ravel {A : Type} (a : ndarray A) : list A := data a.

(** Elementwise binary operation on one-dimensional arrays, with
    NumPy's broadcasting of a length-one operand. *)
Definition broadcast2 {A B C : Type} (f : A -> B -> C)
           (xs : list A) (ys : list B) : result (list C) :=
  if length xs =? length ys then Ok (map (fun p => f (fst p) (snd p)) (combine xs ys))
  else match xs, ys with
       | [x], _ => Ok (map (f x) ys)
       | _, [y] => Ok (map (fun x => f x y) xs)
       | _, _ => Raise ValueError
       end.

(** The elements kept by a boolean mask (lengths already checked). *)
Fixpoint select {A : Type} (mask : list bool) (xs : list A) : list A :=
  match mask, xs with
  | b :: mask', x :: xs' => if b then x :: select mask' xs' else select mask' xs'
  | _, _ => []
  end.

(** [xs[mask]] on a one-dimensional array. *)
Definition mask_index {A : Type} (mask : list bool) (xs : list A) : result (list A) :=
  if length mask =? length xs then Ok (select mask xs) else Raise IndexError.

(** [np.where(mask)]: the positions that hold [True]. *)
Fixpoint where_from (i : nat) (mask : list bool) : list nat :=
  match mask with
  | [] => []
  | b :: mask' => if b then i :: where_from (S i) mask' else where_from (S i) mask'
  end.

Definition np_where (mask : list bool) : list nat := where_from 0 mask.

(** [xs[inds]] with an integer index array. *)
Definition take {A : Type} (xs : list A) (inds : list nat) : result (list A) :=
  mapM (fun i => match nth_error xs i with
                 | Some x => Ok x
                 | None => Raise IndexError
                 end) inds.

(** The [n] consecutive blocks of [k] elements of a row-major buffer. *)
Fixpoint chunks {A : Type} (n k : nat) (l : list A) : list (list A) :=
  match n with
  | O => []
  | S n' => firstn k l :: chunks n' k (skipn k l)
  end.

(** [a[mask]] with a one-dimensional boolean mask: selects along the
    first axis, whose length the mask must have. *)
Definition nd_mask_index {A : Type} (mask : list bool) (a : ndarray A) : result (ndarray A) :=
  match shape a with
  | [] => Raise IndexError
  | n :: rest =>
      if length mask =? n then
        let sel := select mask (chunks n (size_of rest) (data a)) in
        Ok {| shape := length sel :: rest; data := concat sel |}
      else Raise IndexError
  end.

(** Iterating an array yields its sub-arrays along the first axis. *)
Definition nd_iter {A : Type} (a : ndarray A) : result (list (ndarray A)) :=
  match shape a with
  | [] => Raise TypeError
  | n :: rest => Ok (map (mk_ndarray rest) (chunks n (size_of rest) (data a)))
  end.

(** [float(a)], [a.item()]: only an array of exactly one element
    converts to a scalar.  (NumPy up to 2.3 converts such an array
    whatever its dimension; from 2.4 on [float] refuses an array of
    dimension above zero.  The rows of a vector have dimension zero.) *)
Definition nd_item {A : Type} (a : ndarray A) : result A :=
  match data a with
  | [x] => Ok x
  | _ => Raise TypeError
  end.

Definition count_true (l : list bool) : nat := length (filter (fun b => b) l).

(** ** Reductions *)

Section Reductions.
Context {T : Type} `{Dtype T}.

(** One pass of the unrolled loop: the eight accumulators take the
    next eight elements. *)
Definition add8 (r blk : list T) : list T :=
  map (fun p => fadd (fst p) (snd p)) (combine r blk).

(** [((r0 + r1) + (r2 + r3)) + ((r4 + r5) + (r6 + r7))]. *)
Definition tree8 (r : list T) : T :=
  match r with
  | [r0; r1; r2; r3; r4; r5; r6; r7] =>
      fadd (fadd (fadd r0 r1) (fadd r2 r3)) (fadd (fadd r4 r5) (fadd r6 r7))
  | _ => of_count 0
  end.

(** A block of 8 to 128 elements: eight accumulators start from the
    first eight elements and run over the following groups of eight;
    they are added up as a tree, and the elements left over (fewer than
    eight) are added one by one. *)
Definition block_sum (a : list T) : T :=
  let n := length a in
  let full := n - n mod 8 in
  let r := fold_left add8 (chunks (full / 8 - 1) 8 (skipn 8 a)) (firstn 8 a) in
  fold_left fadd (skipn full a) (tree8 r).

(** NumPy's pairwise summation of a contiguous array
    ([DOUBLE_pairwise_sum]): fewer than 8 elements are accumulated from
    zero in index order, up to 128 elements as one block, more are
    split in two halves, the first of a length that is a multiple of 8.
    The fuel bounds the depth of the halving; the length is enough. *)
Fixpoint pairwise_sum (fuel : nat) (a : list T) : T :=
  if length a <? 8 then fold_left fadd a (of_count 0)
  else if length a <=? 128 then block_sum a
  else match fuel with
       | O => block_sum a
       | S fuel' =>
           let n2 := length a / 2 - (length a / 2) mod 8 in
           fadd (pairwise_sum fuel' (firstn n2 a)) (pairwise_sum fuel' (skipn n2 a))
       end.

(** [a.sum()]: the reduction starts from the identity 0 and adds the
    pairwise sum of the array.  (Later NumPy versions start from -0.0
    instead, which changes the sign of a zero sum of negative zeros
    only.) *)
Definition np_sum (xs : list T) : T :=
  fadd (of_count 0) (pairwise_sum (length xs) xs).

(** [a.mean()]. *)
Definition np_mean (xs : list T) : T := fdiv (np_sum xs) (of_count (length xs)).

(** [np.var(a)]: mean of the squared deviations from the mean. *)
Definition np_var (xs : list T) : T :=
  let arrmean := np_mean xs in
  np_mean (map (fun x => let d := fsub x arrmean in fmul d d) xs).

(** [np.average] of a boolean array: the booleans are summed as
    0./1. and divided by their number. *)
Definition np_average (bs : list bool) : T :=
  fdiv (of_count (count_true bs)) (of_count (length bs)).

(** [x ** 2]. *)
Definition square (x : T) : T := fmul x x.
End Reductions.

(** ** Keyword arguments *)

(** The [**kwargs] bag.  Censor flags are integers (0 censored, 1 event
    observed); survival times have the element type of the predictions. *)
Record kwargs (T : Type) : Type := mk_kwargs {
  censor_flag : option (ndarray Z);
  survival_time : option (ndarray T)
}.

Definition kw_get {A : Type} (o : option A) : result A :=
  match o with
  | Some a => Ok a
  | None => Raise KeyError
  end.

(** [astype(np.int8)] on an integer: wrap-around to the signed 8-bit range. *)
Definition astype_int8 (z : Z) : Z := ((z + 128) mod 256 - 128)%Z.

(** [d == 1] after the cast. *)
Definition event_mask (d : list Z) : list bool :=
  map (fun z => (astype_int8 z =? 1)%Z) d.

(** ** The metrics *)

Section Metrics.
Context {T : Type} `{Dtype T} `{SetOrder T}.

(** [rmse]: root mean squared error. *)
Definition rmse (y_pred y_true : ndarray T) : result T :=
  let y_pred := ravel y_pred in
  let y_true := ravel y_true in
  diff <- broadcast2 fsub y_pred y_true ;;
  Ok (fsqrt (np_mean (map square diff))).

(** [nmse]: mean squared error over the variance of the ground truth. *)
Definition nmse (y_pred y_true : ndarray T) : result T :=
  let y_pred := ravel y_pred in
  let y_true := ravel y_true in
  diff <- broadcast2 fsub y_pred y_true ;;
  Ok (fdiv (np_mean (map square diff)) (np_var y_true)).

(** [accuracy]: fraction of samples whose rounded prediction equals the
    ground truth. *)
Definition accuracy (y_pred y_true : ndarray T) : result T :=
  let y_pred := ravel y_pred in
  let y_true := ravel y_true in
  hits <- broadcast2 feqb (map frint y_pred) y_true ;;
  Ok (np_average hits).

(** [accuracy_per_class]: [accuracy] on the samples of each class [c] of
    [set(y_true)], in the iteration order of that set.  The predictions
    are rounded and cast to integers first; the integer array is
    promoted back to the element type when [accuracy] compares it with
    the ground truth. *)
Definition accuracy_per_class (y_pred y_true : ndarray T) : result (list (T * T)) :=
  let y_pred := ravel y_pred in
  let y_true := ravel y_true in
  let set_y := py_set y_true in
  let y_pred := map (fun p => of_int64 (to_int64 (frint p))) y_pred in
  mapM (fun c =>
          let inds := np_where (map (fun t => feqb t c) y_true) in
          p <- take y_pred inds ;;
          t <- take y_true inds ;;
          acc <- accuracy (vec p) (vec t) ;;
          Ok (c, acc))
       set_y.

(** [rmse_survival]: [rmse] on the samples whose event was observed. *)
Definition rmse_survival (y_pred y_true : ndarray T) (kw : kwargs T) : result T :=
  let y_pred := ravel y_pred in
  let y_true := ravel y_true in
  cf <- kw_get (censor_flag kw) ;;
  let d := event_mask (ravel cf) in
  p <- mask_index d y_pred ;;
  t <- mask_index d y_true ;;
  diff <- broadcast2 fsub p t ;;
  Ok (fsqrt (np_mean (map square diff))).

(** [mse_survival]. *)
Definition mse_survival (y_pred y_true : ndarray T) (kw : kwargs T) : result T :=
  let y_pred := ravel y_pred in
  let y_true := ravel y_true in
  cf <- kw_get (censor_flag kw) ;;
  let d := event_mask (ravel cf) in
  p <- mask_index d y_pred ;;
  t <- mask_index d y_true ;;
  diff <- broadcast2 fsub p t ;;
  Ok (np_mean (map square diff)).

(** [mae_survival]. *)
Definition mae_survival (y_pred y_true : ndarray T) (kw : kwargs T) : result T :=
  let y_pred := ravel y_pred in
  let y_true := ravel y_true in
  cf <- kw_get (censor_flag kw) ;;
  let d := event_mask (ravel cf) in
  p <- mask_index d y_pred ;;
  t <- mask_index d y_true ;;
  diff <- broadcast2 fsub p t ;;
  Ok (np_mean (map fabs diff)).

(** *** [c_index_ours] *)

(** What [np.sum(rows, axis=0)] returns in [c_index_ours]: the 0-d
    scalar [0.0] when there is nothing to sum, else the pair
    [numerator, denominator].  Both entries are sums of [0.]/[1.], kept
    as counts. *)
Inductive summed : Set :=
| Sum0d
| SumPair (num den : nat).

Definition is_pair (s : summed) : bool :=
  match s with
  | Sum0d => false
  | SumPair _ _ => true
  end.

Definition add_summed (acc s : summed) : summed :=
  match acc, s with
  | Sum0d, s => s
  | acc, Sum0d => acc
  | SumPair n1 d1, SumPair n2 d2 => SumPair (n1 + n2) (d1 + d2)
  end.

(** [float(yi_pred < yj_pred)]: the elementwise comparison of two
    sub-arrays of the same shape, converted to a scalar. *)
Definition float_lt (yi yj : ndarray T) : result bool :=
  nd_item {| shape := shape yi;
             data := map (fun p => fltb (fst p) (snd p)) (combine (data yi) (data yj)) |}.

(** The inner [np.sum([[float(yi_pred < yj_pred), 1.] for yj_pred in ...], axis=0)]. *)
Definition inner_sum (yi : ndarray T) (partners : list (ndarray T)) : result summed :=
  cmp <- mapM (float_lt yi) partners ;;
  Ok (match cmp with
      | [] => Sum0d
      | _ :: _ => SumPair (count_true cmp) (length cmp)
      end).

(** The outer [np.sum([...], axis=0)] over the inner results.  Rows that
    are all pairs, or all scalars, form a regular array.  A mix of
    scalars and pairs is a ragged sequence: NumPy before 1.24 builds an
    object array and adds the scalars to the pairs ([legacy_ragged]);
    later versions raise [ValueError]. *)
Definition outer_sum (legacy_ragged : bool) (rows : list summed) : result summed :=
  if forallb is_pair rows || forallb (fun s => negb (is_pair s)) rows || legacy_ragged
  then Ok (fold_left add_summed rows Sum0d)
  else Raise ValueError.

(** The three arrays zipped by the outer comprehension. *)
Fixpoint zip3 {A B C : Type} (xs : list A) (ys : list B) (zs : list C) : list (A * B * C) :=
  match xs, ys, zs with
  | x :: xs', y :: ys', z :: zs' => (x, y, z) :: zip3 xs' ys' zs'
  | _, _, _ => []
  end.

(** [c_index_ours]: neither [y_pred] nor [y_true] is flattened; the
    censor flags and the survival times are. *)
Definition c_index_ours (legacy_ragged : bool) (y_pred y_true : ndarray T)
           (kw : kwargs T) : result T :=
  cf <- kw_get (censor_flag kw) ;;
  let d := event_mask (ravel cf) in
  st <- kw_get (survival_time kw) ;;
  let v := map to_float32 (ravel st) in
  ev_v <- mask_index d v ;;
  ev_p <- nd_mask_index d y_pred ;;
  ev_p <- nd_iter ev_p ;;
  ev_t <- nd_mask_index d y_true ;;
  ev_t <- nd_iter ev_t ;;
  rows <- mapM (fun e =>
                  match e with
                  | (vi, yi_pred, yi_true) =>
                      partners <- nd_mask_index (map (fun vj => fltb vi vj) v) y_pred ;;
                      partners <- nd_iter partners ;;
                      inner_sum yi_pred partners
                  end)
               (zip3 ev_v ev_p ev_t) ;;
  numerator_denominator <- outer_sum legacy_ragged rows ;;
  match numerator_denominator with
  | Sum0d => Raise IndexError
  | SumPair num den => Ok (fdiv (of_count num) (of_count den))
  end.

End Metrics.

(** ** IEEE binary64 elements *)

Module F64.

(** Conversion of an integer, correctly rounded. *)
Definition of_Z (z : Z) : float := SF2Prim (binary_normalize prec emax z 0 false).

(** [rint]: round to an integral value, ties to even, as the usual
    implementation does it: below [2^52] adding and subtracting [2^52]
    rounds the fraction away in the current (to nearest even) mode, and
    the sign of [x] is put back; from [2^52] on every binary64 number
    is integral, and NaN stays NaN. *)
Definition two52 : float := Eval vm_compute in of_Z (2 ^ 52).

Definition rint (x : float) : float :=
  if PrimFloat.ltb (PrimFloat.abs x) two52 then
    let r := PrimFloat.sub (PrimFloat.add (PrimFloat.abs x) two52) two52 in
    if PrimFloat.get_sign x then PrimFloat.opp r else r
  else x.

(** [astype(int)]: truncation toward zero; what does not fit 64 bits
    (also NaN and the infinities) becomes the least integer, as on
    x86-64. *)
Definition int64_min : Z := (- 2 ^ 63)%Z.

Definition trunc (x : float) : Z :=
  match Prim2SF x with
  | S754_zero _ => 0%Z
  | S754_finite s m e =>
      let mag := match e with
                 | Zneg p => Z.shiftr (Zpos m) (Zpos p)
                 | _ => Z.shiftl (Zpos m) e
                 end in
      let z := if s then Z.opp mag else mag in
      if (int64_min <=? z)%Z && (z <? 2 ^ 63)%Z then z else int64_min
  | _ => int64_min
  end.

(** [astype(np.float32)]: rounding to binary32 (24 bits of precision,
    [emax = 128]); the result is again a binary64 number. *)
Definition to_f32 (x : float) : float :=
  match Prim2SF x with
  | S754_finite s m e =>
      SF2Prim (binary_normalize 24 128 (cond_Zopp s (Zpos m)) e s)
  | _ => x
  end.

End F64.

#[export] Instance float_dtype : Dtype float := {
  fadd := PrimFloat.add;
  fsub := PrimFloat.sub;
  fmul := PrimFloat.mul;
  fdiv := PrimFloat.div;
  fsqrt := PrimFloat.sqrt;
  fabs := PrimFloat.abs;
  frint := F64.rint;
  of_count := fun n => F64.of_Z (Z.of_nat n);
  of_int64 := F64.of_Z;
  to_int64 := F64.trunc;
  to_float32 := F64.to_f32;
  feqb := PrimFloat.eqb;
  fltb := PrimFloat.ltb
}.

(** ** CPython's [set] of binary64 numbers *)

(** [set(y_true)] puts the elements, one after the other, in an
    open-addressing hash table and iterates the table slot by slot
    (CPython's [setobject.c]); the order is neither the insertion order
    nor the numeric order. *)
Module CPython.

(** [hash(x)] of a float: the value reduced modulo the Mersenne prime
    [2^61 - 1], with the sign of [x]; [-1] is reserved and replaced by
    [-2] ([_Py_HashDouble]).  NaN hashes to 0 up to Python 3.9 and to
    the identity of its object from 3.10 on; that moves the slot of a
    NaN, not its membership, as no NaN equals a key of the table. *)
Definition hash_modulus : Z := (2 ^ 61 - 1)%Z.

Definition hash_double (x : float) : Z :=
  match Prim2SF x with
  | S754_nan => 0%Z
  | S754_zero _ => 0%Z
  | S754_infinity s => if s then (-314159)%Z else 314159%Z
  | S754_finite s m e =>
      let h := ((Zpos m * 2 ^ (e mod 61)) mod hash_modulus)%Z in
      let h := if s then Z.opp h else h in
      if (h =? -1)%Z then (-2)%Z else h
  end.

Record setentry : Set := mk_entry { key : float; ehash : Z }.

Record setobject : Set := mk_set {
  table : list (option setentry);
  mask : Z;
  fill : Z
}.

Definition PySet_MINSIZE : Z := 8%Z.
Definition LINEAR_PROBES : nat := 9.
Definition PERTURB_SHIFT : Z := 5%Z.

Definition size_t (z : Z) : Z := (z mod 2 ^ 64)%Z.

Definition empty_table (size : Z) : list (option setentry) :=
  repeat None (Z.to_nat size).

Definition empty_set : setobject :=
  {| table := empty_table PySet_MINSIZE; mask := (PySet_MINSIZE - 1)%Z; fill := 0%Z |}.

Fixpoint store (tbl : list (option setentry)) (i : nat) (e : setentry) : list (option setentry) :=
  match tbl, i with
  | [], _ => []
  | _ :: tbl', O => Some e :: tbl'
  | s :: tbl', S i' => s :: store tbl' i' e
  end.

(** Outcome of probing for a key. *)
Inductive probe : Set :=
| Unused (i : Z)   (* free slot where the key goes *)
| Active           (* an equal key is already there *)
| Miss.            (* the run of slots is taken by other keys *)

(** The [do ... while (probes--)] run over consecutive slots.  With
    [k = None] the slots are only tested for being free
    ([set_insert_clean]). *)
Fixpoint scan (tbl : list (option setentry)) (k : option setentry) (i : Z) (probes : nat) : probe :=
  match nth_error tbl (Z.to_nat i) with
  | Some (Some e) =>
      if match k with
         | Some k => (ehash e =? ehash k)%Z && PrimFloat.eqb (key e) (key k)
         | None => false
         end
      then Active
      else match probes with
           | O => Miss
           | S probes' => scan tbl k (i + 1)%Z probes'
           end
  | _ => Unused i
  end.

(** The probe sequence [i = (i * 5 + 1 + perturb) & mask]. *)
Fixpoint probe_loop (fuel : nat) (tbl : list (option setentry)) (msk : Z)
         (k : option setentry) (i perturb : Z) : probe :=
  match fuel with
  | O => Miss
  | S fuel' =>
      let probes := if (i + Z.of_nat LINEAR_PROBES <=? msk)%Z then LINEAR_PROBES else O in
      match scan tbl k i probes with
      | Miss =>
          let perturb := Z.shiftr perturb PERTURB_SHIFT in
          probe_loop fuel' tbl msk k (Z.land (size_t (i * 5 + 1 + perturb)) msk) perturb
      | r => r
      end
  end.

Definition find_slot (tbl : list (option setentry)) (msk : Z) (k : option setentry) (h : Z) : probe :=
  probe_loop (64 + 2 * length tbl) tbl msk k (Z.land (size_t h) msk) (size_t h).

(** [set_insert_clean]: insertion into a table known to hold no equal key. *)
Definition set_insert_clean (msk : Z) (tbl : list (option setentry)) (e : setentry)
  : list (option setentry) :=
  match find_slot tbl msk None (ehash e) with
  | Unused i => store tbl (Z.to_nat i) e
  | _ => tbl
  end.

Fixpoint grow (fuel : nat) (newsize minused : Z) : Z :=
  match fuel with
  | O => newsize
  | S fuel' => if (newsize <=? minused)%Z then grow fuel' (newsize * 2)%Z minused else newsize
  end.

(** [set_table_resize]: a table of the least power of two above
    [minused], refilled in the slot order of the old table. *)
Definition set_table_resize (so : setobject) (minused : Z) : setobject :=
  let newsize := grow 64 PySet_MINSIZE minused in
  let newmask := (newsize - 1)%Z in
  let entries := flat_map (fun s => match s with Some e => [e] | None => [] end) (table so) in
  {| table := fold_left (set_insert_clean newmask) entries (empty_table newsize);
     mask := newmask;
     fill := fill so |}.

(** [set_add_entry]. *)
Definition set_add_key (so : setobject) (x : float) : setobject :=
  let e := {| key := x; ehash := hash_double x |} in
  match find_slot (table so) (mask so) (Some e) (ehash e) with
  | Unused i =>
      let so' := {| table := store (table so) (Z.to_nat i) e;
                    mask := mask so;
                    fill := (fill so + 1)%Z |} in
      if (fill so' * 5 <? mask so' * 3)%Z then so'
      else set_table_resize so' (if (50000 <? fill so')%Z then fill so' * 2 else fill so' * 4)%Z
  | _ => so
  end.

(** [set(xs)] and its iteration. *)
Definition set_of (xs : list float) : setobject := fold_left set_add_key xs empty_set.

(** The keys of a table, slot by slot. *)
Definition keys (tbl : list (option setentry)) : list float :=
  flat_map (fun s => match s with Some e => [key e] | None => [] end) tbl.

Definition iter (so : setobject) : list float := keys (table so).

End CPython.

#[export] Instance float_set : SetOrder float := {
  py_set := fun xs => CPython.iter (CPython.set_of xs)
}.

(** ** Real-number elements *)

(** The same operations on the real numbers: exact arithmetic, no NaN,
    no rounding ([astype(np.float32)] loses nothing).  Division by zero
    has no meaning here; the statements about reals exclude it. *)
Module Real.

Definition eqb (x y : R) : bool := if Req_dec_T x y then true else false.
Definition ltb (x y : R) : bool := if Rlt_dec x y then true else false.

(** Round to the nearest integer, ties to the even one. *)
Definition rint (x : R) : R :=
  let n := Int_part x in
  let r := (x - IZR n)%R in
  if Rlt_dec r (1 / 2) then IZR n
  else if Rlt_dec (1 / 2) r then IZR (n + 1)
  else if Z.even n then IZR n else IZR (n + 1).

(** [astype(int)]: truncation toward zero; what does not fit 64 bits
    becomes the least integer, as for binary64 numbers. *)
Definition trunc (x : R) : Z :=
  let z := if Rle_dec 0 x then Int_part x else Z.opp (Int_part (- x)) in
  if (- 2 ^ 63 <=? z)%Z && (z <? 2 ^ 63)%Z then z else (- 2 ^ 63)%Z.

End Real.

#[export] Instance real_dtype : Dtype R := {
  fadd := Rplus;
  fsub := Rminus;
  fmul := Rmult;
  fdiv := Rdiv;
  fsqrt := sqrt;
  fabs := Rabs;
  frint := Real.rint;
  of_count := INR;
  of_int64 := IZR;
  to_int64 := Real.trunc;
  to_float32 := fun x => x;
  feqb := Real.eqb;
  fltb := Real.ltb
}.

(** ** Reference computations, in the words of the specification *)

Section Reference.
Context {T : Type} `{Dtype T}.

(** The indices [i] with [censor_flag[i] == 1], in input order. *)
Definition event_indices (censor_flag : list Z) : list nat :=
  filter (fun i => (nth i censor_flag 0 =? 1)%Z) (seq 0 (length censor_flag)).

(** The subsequence of [xs] at the given indices. *)
Definition at_indices {A : Type} (xs : list A) (inds : list nat) : list A :=
  flat_map (fun i => match nth_error xs i with
                     | Some x => [x]
                     | None => []
                     end) inds.

(** Mean squared error and mean absolute error of two aligned vectors. *)
Definition mean_squared_error (pred truth : list T) : T :=
  np_mean (map (fun p => square (fsub (fst p) (snd p))) (combine pred truth)).

Definition mean_absolute_error (pred truth : list T) : T :=
  np_mean (map (fun p => fabs (fsub (fst p) (snd p))) (combine pred truth)).

(** The comparison set [J = { j : time[j] > time[i] }] of sample [i],
    over all samples; [tm] is what is done to a time before it is
    compared (nothing, in the specification). *)
Definition comparison_set (tm : T -> T) (survival_time : list T) (i : nat) : list nat :=
  filter (fun j => match nth_error survival_time i, nth_error survival_time j with
                   | Some vi, Some vj => fltb (tm vi) (tm vj)
                   | _, _ => false
                   end)
         (seq 0 (length survival_time)).

(** The comparison results of sample [i] against the partners [j] of its
    comparison set: whether [pred[i] < pred[j]], strictly. *)
Definition terms_at (tm : T -> T) (pred v : list T) (i : nat) : list bool :=
  flat_map (fun j => match nth_error pred i, nth_error pred j with
                     | Some yi, Some yj => [fltb yi yj]
                     | _, _ => []
                     end)
           (comparison_set tm v i).

(** One term per event sample [i], in input order, and partner [j] in
    [J]: whether [pred[i] < pred[j]]. *)
Definition concordance_terms (tm : T -> T) (pred : list T) (censor_flag : list Z)
           (survival_time : list T) : list bool :=
  flat_map (terms_at tm pred survival_time) (event_indices censor_flag).

(** Total numerator over total denominator. *)
Definition c_index_reference (tm : T -> T) (pred : list T) (censor_flag : list Z)
           (survival_time : list T) : T :=
  let terms := concordance_terms tm pred censor_flag survival_time in
  fdiv (of_count (count_true terms)) (of_count (length terms)).

(** [f] applied to every element of an array. *)
Definition nd_map (f : T -> T) (a : ndarray T) : ndarray T :=
  {| shape := shape a; data := map f (data a) |}.

End Reference.

(** A zero-dimensional array: what iterating a vector yields. *)
Definition scalar0 {A : Type} (x : A) : ndarray A := {| shape := []; data := [x] |}.

(** The row a list of comparison results sums to. *)
Definition row_of (cmp : list bool) : summed :=
  match cmp with
  | [] => Sum0d
  | _ :: _ => SumPair (count_true cmp) (length cmp)
  end.

(** A real number that is an integer (a class label). *)
Definition integral (x : R) : Prop := exists k : Z, x = IZR k.

(** A set of reals that iterates in the order of first occurrence. *)
Definition first_occurrence_set : SetOrder R := {| py_set := nodup Req_dec_T |}.

(** Keyword bags of the survival metrics. *)
Definition kw_censor {T : Type} (d : list Z) : kwargs T :=
  {| censor_flag := Some (vec d); survival_time := None |}.

Definition kw_survival {T : Type} (d : list Z) (v : list T) : kwargs T :=
  {| censor_flag := Some (vec d); survival_time := Some (vec v) |}.

(** Flags that [astype(np.int8)] leaves as they are; 0/1 flags do. *)
Definition int8_flags (d : list Z) : Prop :=
  Forall (fun z => (-128 <= z <= 127)%Z) d.

(** Sum of a list of reals. *)
Fixpoint Rsum (xs : list R) : R :=
  match xs with
  | [] => 0%R
  | x :: xs' => (x + Rsum xs')%R
  end.

(** The squared differences of two aligned real vectors. *)
Definition sq_diffs (pred truth : list R) : list R :=
  map (fun p => (fst p - snd p) * (fst p - snd p))%R (combine pred truth).

(** A column vector: the [n] elements as an array of shape (n, 1). *)
Definition column {A : Type} (xs : list A) : ndarray A :=
  {| shape := [length xs; 1]; data := xs |}.

(** An array of one element under the shape [sh]: a row of a vector
    ([sh = []]) or of a column ([sh = [1]]). *)
Definition single {A : Type} (sh : list nat) (x : A) : ndarray A :=
  {| shape := sh; data := [x] |}.

(** The pair with the numerator complemented in the denominator. *)
Definition flip_summed (s : summed) : summed :=
  match s with
  | Sum0d => Sum0d
  | SumPair num den => SumPair (den - num) den
  end.

(** What [np.sum] hands to the final division: a scalar, or a pair whose
    numerator does not exceed its positive denominator. *)
Definition sound_sum (s : summed) : Prop :=
  match s with
  | Sum0d => True
  | SumPair num den => num <= den /\ 0 < den
  end.

Section Partners.
Context {T : Type} `{Dtype T}.

(** Whether every event sample has at least one partner. *)
Definition all_partnered (tm : T -> T) (survival_time : list T) (censor_flag : list Z) : bool :=
  forallb (fun i => match comparison_set tm survival_time i with
                    | [] => false
                    | _ :: _ => true
                    end)
          (event_indices censor_flag).

End Partners.

Section PerClass.
Context {T : Type} `{Dtype T}.

(** The comparison results [accuracy] reduces for the class [c] of
    [accuracy_per_class]: one for every sample whose ground truth equals
    [c], in input order. *)
Definition class_hits (y_pred y_true : list T) (c : T) : list bool :=
  let mask := map (fun t => feqb t c) y_true in
  let ints := map (fun p => of_int64 (to_int64 (frint p))) y_pred in
  map (fun p => feqb (fst p) (snd p))
      (combine (map frint (select mask ints)) (select mask y_true)).

End PerClass.

(** * Properties *)

(** ** Arrays and masks *)

Lemma bind_ok {A B : Type} (a : A) (k : A -> result B) :
  (x <- Ok a ;; k x) = k a.
Proof. reflexivity. Qed.

Lemma mapM_ok {A B : Type} (f : A -> result B) (g : A -> B) (l : list A) :
  (forall a, In a l -> f a = Ok (g a)) -> mapM f l = Ok (map g l).
Proof.
  induction l as [|a l IH]; intros Hf; simpl.
  - reflexivity.
  - rewrite (Hf a (or_introl eq_refl)); simpl.
    rewrite IH by (intros b Hb; apply Hf; right; exact Hb).
    reflexivity.
Qed.

Lemma astype_int8_id (z : Z) : (-128 <= z <= 127)%Z -> astype_int8 z = z.
Proof.
  intros Hz; unfold astype_int8.
  rewrite Z.mod_small by lia. lia.
Qed.

Lemma event_mask_int8 (d : list Z) :
  int8_flags d -> event_mask d = map (fun z => (z =? 1)%Z) d.
Proof.
  unfold event_mask; induction 1 as [|z d Hz _ IH]; simpl.
  - reflexivity.
  - rewrite astype_int8_id by exact Hz. now rewrite IH.
Qed.

Lemma event_mask_length (d : list Z) : length (event_mask d) = length d.
Proof. unfold event_mask; apply length_map. Qed.

Lemma filter_seq_shift (P : nat -> bool) (s n : nat) :
  filter P (seq (S s) n) = map S (filter (fun i => P (S i)) (seq s n)).
Proof.
  revert s; induction n as [|n IH]; intros s; simpl.
  - reflexivity.
  - rewrite IH. destruct (P (S s)); reflexivity.
Qed.

Lemma at_indices_cons {A : Type} (x : A) (xs : list A) (inds : list nat) :
  at_indices (x :: xs) (map S inds) = at_indices xs inds.
Proof.
  unfold at_indices; induction inds as [|i inds IH]; simpl.
  - reflexivity.
  - now rewrite IH.
Qed.

(** Masking with [d == 1] picks the subsequence at the event indices. *)
Lemma select_event_indices {A : Type} (d : list Z) (xs : list A) :
  length d = length xs ->
  select (map (fun z => (z =? 1)%Z) d) xs = at_indices xs (event_indices d).
Proof.
  revert xs; induction d as [|z d IH]; intros [|x xs] Hlen; simpl in Hlen; try discriminate.
  - reflexivity.
  - unfold event_indices; cbn [length seq filter map select nth].
    rewrite filter_seq_shift; cbn [nth].
    fold (event_indices d).
    specialize (IH xs ltac:(lia)).
    destruct (z =? 1)%Z.
    + cbn [at_indices flat_map nth_error app]. fold (at_indices (x :: xs) (map S (event_indices d))).
      rewrite at_indices_cons. now rewrite IH.
    + rewrite at_indices_cons. exact IH.
Qed.

Lemma select_length_eq {A B : Type} (m : list bool) (xs : list A) (ys : list B) :
  length xs = length ys -> length (select m xs) = length (select m ys).
Proof.
  revert xs ys; induction m as [|b m IH]; intros [|x xs] [|y ys] Hlen;
    simpl in *; try discriminate; try reflexivity.
  destruct b; simpl; [f_equal|]; apply IH; lia.
Qed.

Lemma broadcast2_same_length {A B C : Type} (f : A -> B -> C) (xs : list A) (ys : list B) :
  length xs = length ys ->
  broadcast2 f xs ys = Ok (map (fun p => f (fst p) (snd p)) (combine xs ys)).
Proof.
  intros Hlen; unfold broadcast2. now rewrite Hlen, Nat.eqb_refl.
Qed.

Lemma mask_index_same_length {A : Type} (m : list bool) (xs : list A) :
  length m = length xs -> mask_index m xs = Ok (select m xs).
Proof.
  intros Hlen; unfold mask_index. now rewrite Hlen, Nat.eqb_refl.
Qed.

(** ** Survival metrics restrict to the observed events (C2) *)

Section Survival.
Context {T : Type} `{Dtype T}.

(** C2.  For equal-length [pred], [true] and [censor_flag] with at least
    one flag equal to 1, [rmse_survival] is [rmse] of the subsequences at
    the indices where the flag is 1, [mse_survival] is their mean squared
    error and [mae_survival] their mean absolute error. *)
Theorem survival_metrics_on_event_subset (pred truth : list T) (d : list Z) :
  length pred = length truth ->
  length d = length truth ->
  int8_flags d ->
  In 1%Z d ->
  let p1 := at_indices pred (event_indices d) in
  let t1 := at_indices truth (event_indices d) in
  rmse_survival (vec pred) (vec truth) (kw_censor d) = rmse (vec p1) (vec t1) /\
  mse_survival (vec pred) (vec truth) (kw_censor d) = Ok (mean_squared_error p1 t1) /\
  mae_survival (vec pred) (vec truth) (kw_censor d) = Ok (mean_absolute_error p1 t1).
Proof.
  intros Hpt Hd Hflags _ p1 t1.
  assert (Hp : mask_index (event_mask d) pred = Ok p1).
  { rewrite mask_index_same_length by (rewrite event_mask_length; lia).
    rewrite event_mask_int8 by exact Hflags.
    unfold p1; now rewrite select_event_indices by lia. }
  assert (Ht : mask_index (event_mask d) truth = Ok t1).
  { rewrite mask_index_same_length by (rewrite event_mask_length; lia).
    rewrite event_mask_int8 by exact Hflags.
    unfold t1; now rewrite select_event_indices by lia. }
  assert (Hlen : length p1 = length t1).
  { unfold p1, t1. rewrite <- !select_event_indices by lia.
    now apply select_length_eq. }
  unfold rmse_survival, mse_survival, mae_survival, rmse, kw_censor;
    cbn [censor_flag kw_get ravel vec data bind].
  rewrite Hp, Ht; cbn [bind].
  rewrite (broadcast2_same_length _ _ _ Hlen); cbn [bind].
  unfold mean_squared_error, mean_absolute_error.
  rewrite !map_map. repeat split; reflexivity.
Qed.

End Survival.

(** C2 at a concrete input: three samples, two observed events. *)
Lemma survival_metrics_on_event_subset_witness :
  rmse_survival (vec [1; 2; 4]%R) (vec [1; 1; 1]%R) (kw_censor [1; 0; 1]%Z)
  = rmse (vec [1; 4]%R) (vec [1; 1]%R) /\
  mse_survival (vec [1; 2; 4]%R) (vec [1; 1; 1]%R) (kw_censor [1; 0; 1]%Z)
  = Ok (mean_squared_error [1; 4]%R [1; 1]%R) /\
  mae_survival (vec [1; 2; 4]%R) (vec [1; 1; 1]%R) (kw_censor [1; 0; 1]%Z)
  = Ok (mean_absolute_error [1; 4]%R [1; 1]%R).
Proof.
  refine (@survival_metrics_on_event_subset R _ [1; 2; 4]%R [1; 1; 1]%R [1; 0; 1]%Z
            eq_refl eq_refl _ _).
  - repeat constructor; cbn; lia.
  - now left.
Defined.

(** ** Real-number semantics: helper facts *)

Lemma Real_eqb_refl (x : R) : Real.eqb x x = true.
Proof. unfold Real.eqb; destruct (Req_dec_T x x); congruence. Qed.

Lemma Real_eqb_neq (x y : R) : x <> y -> Real.eqb x y = false.
Proof. intros Hxy; unfold Real.eqb; destruct (Req_dec_T x y); congruence. Qed.

Lemma Int_part_IZR_plus (k : Z) (r : R) :
  (0 <= r < 1)%R -> Int_part (IZR k + r) = k.
Proof.
  intros Hr; symmetry; apply Int_part_spec; lra.
Qed.

(** An integer is its own rounding. *)
Lemma Real_rint_IZR (k : Z) : Real.rint (IZR k) = IZR k.
Proof.
  unfold Real.rint.
  replace (Int_part (IZR k)) with k
    by (rewrite <- (Rplus_0_r (IZR k)) at 1; rewrite Int_part_IZR_plus; [reflexivity | lra]).
  destruct (Rlt_dec (IZR k - IZR k) (1 / 2)) as [_ | Hn]; [reflexivity | exfalso; apply Hn; lra].
Qed.

(** A value halfway between [k] and [k + 1] rounds to the even one. *)
Lemma Real_rint_half (k : Z) :
  Real.rint (IZR k + 1 / 2) = IZR (if Z.even k then k else k + 1).
Proof.
  unfold Real.rint.
  rewrite Int_part_IZR_plus by lra.
  destruct (Rlt_dec (IZR k + 1 / 2 - IZR k) (1 / 2)) as [Hlt | _]; [exfalso; lra |].
  destruct (Rlt_dec (1 / 2) (IZR k + 1 / 2 - IZR k)) as [Hlt | _]; [exfalso; lra |].
  destruct (Z.even k); reflexivity.
Qed.

Lemma count_true_le (bs : list bool) : count_true bs <= length bs.
Proof. unfold count_true; apply filter_length_le. Qed.

Lemma count_true_all (bs : list bool) :
  Forall (fun b => b = true) bs -> count_true bs = length bs.
Proof.
  unfold count_true; induction 1 as [|b bs Hb _ IH]; simpl.
  - reflexivity.
  - subst b; simpl; now rewrite IH.
Qed.

(** A fraction of a non-empty sample lies between 0 and 1. *)
Lemma fraction_unit_interval (c n : nat) :
  c <= n -> 0 < n -> (0 <= INR c / INR n <= 1)%R.
Proof.
  intros Hcn Hn.
  assert (Hn' : (0 < INR n)%R) by (apply lt_0_INR; exact Hn).
  assert (Hc : (0 <= INR c)%R) by apply pos_INR.
  assert (Hle : (INR c <= INR n)%R) by (apply le_INR; exact Hcn).
  split.
  - apply Rmult_le_pos; [exact Hc | left; apply Rinv_0_lt_compat; exact Hn'].
  - apply Rmult_le_reg_r with (INR n); [exact Hn' |].
    unfold Rdiv; rewrite Rmult_assoc, Rinv_l by lra. lra.
Qed.

Lemma np_average_unit_interval (bs : list bool) :
  bs <> [] -> (0 <= @np_average R _ bs <= 1)%R.
Proof.
  intros Hne; unfold np_average; cbn [fdiv of_count real_dtype].
  apply fraction_unit_interval.
  - apply count_true_le.
  - destruct bs; [congruence | simpl; lia].
Qed.

(** ** Root mean squared error and normalised error (C7) *)

(** C7.  For equal-length non-empty vectors whose ground truth has a
    non-zero variance, [rmse(pred, true)] is
    [sqrt(nmse(pred, true) * variance(true))], as real numbers. *)
Theorem rmse_is_sqrt_nmse_times_variance (pred truth : list R) :
  length pred = length truth ->
  truth <> [] ->
  np_var truth <> 0%R ->
  exists a b : R,
    rmse (vec pred) (vec truth) = Ok a /\
    nmse (vec pred) (vec truth) = Ok b /\
    a = sqrt (b * np_var truth).
Proof.
  intros Hlen _ Hvar.
  unfold rmse, nmse; cbn [ravel vec data].
  rewrite (broadcast2_same_length _ _ _ Hlen); cbn [bind].
  eexists; eexists; repeat split.
  cbn [fsqrt fdiv real_dtype]. f_equal.
  field. exact Hvar.
Qed.

Lemma rmse_is_sqrt_nmse_times_variance_witness :
  exists a b : R,
    rmse (vec [1; 3]%R) (vec [0; 2]%R) = Ok a /\
    nmse (vec [1; 3]%R) (vec [0; 2]%R) = Ok b /\
    a = sqrt (b * np_var [0; 2]%R).
Proof.
  apply (@rmse_is_sqrt_nmse_times_variance [1; 3]%R [0; 2]%R eq_refl).
  - discriminate.
  - unfold np_var, np_mean, np_sum; cbn; lra.
Defined.

(** ** Accuracy (C6, C10) *)

Lemma accuracy_hits_all_integral (t : list R) :
  Forall integral t ->
  Forall (fun b => b = true)
         (map (fun p => Real.eqb (fst p) (snd p)) (combine (map Real.rint t) t)).
Proof.
  induction 1 as [|x t [k Hk] _ IH]; simpl; constructor.
  - subst x; rewrite Real_rint_IZR; apply Real_eqb_refl.
  - exact IH.
Qed.

(** C6, as the code has it.  For equal-length non-empty vectors,
    [accuracy(pred, true)] lies in [0, 1]; and for a non-empty vector
    [t] of integers (class labels), [accuracy(t, t)] is 1. *)
Theorem accuracy_unit_interval_and_identity (pred truth t : list R) :
  length pred = length truth ->
  pred <> [] ->
  t <> [] ->
  Forall integral t ->
  (exists a : R, accuracy (vec pred) (vec truth) = Ok a /\ (0 <= a <= 1)%R) /\
  accuracy (vec t) (vec t) = Ok 1%R.
Proof.
  intros Hlen Hne Ht Hint; split.
  - unfold accuracy; cbn [ravel vec data].
    rewrite broadcast2_same_length by (rewrite length_map; exact Hlen); cbn [bind].
    eexists; split; [reflexivity |].
    apply np_average_unit_interval.
    destruct pred as [|p pred]; [congruence |].
    destruct truth as [|y truth]; [discriminate | discriminate].
  - unfold accuracy; cbn [ravel vec data].
    rewrite broadcast2_same_length by (now rewrite length_map); cbn [bind].
    unfold np_average; cbn [fdiv of_count feqb frint real_dtype].
    rewrite count_true_all by (apply accuracy_hits_all_integral; exact Hint).
    f_equal. apply Rdiv_diag.
    apply not_0_INR.
    rewrite length_map, length_combine, length_map, Nat.min_id.
    destruct t; [congruence | simpl; lia].
Qed.

Lemma accuracy_unit_interval_and_identity_witness :
  (exists a : R, accuracy (vec [1; 2]%R) (vec [1; 3]%R) = Ok a /\ (0 <= a <= 1)%R) /\
  accuracy (vec [IZR 1; IZR 2]) (vec [IZR 1; IZR 2]) = Ok 1%R.
Proof.
  apply (@accuracy_unit_interval_and_identity [1; 2]%R [1; 3]%R [IZR 1; IZR 2] eq_refl).
  - discriminate.
  - discriminate.
  - repeat constructor; eexists; reflexivity.
Defined.

(** C6 as stated fails: a vector need not be its own rounding.  With
    [t = [1/2]] the prediction rounds to 0, which differs from the
    ground truth 1/2, and the accuracy is 0.  And on the empty vector
    the mean of no sample is NaN (on binary64 numbers), which is
    neither in [0, 1] nor equal to 1. *)
Lemma accuracy_self_half_not_one :
  accuracy (vec [(1 / 2)%R]) (vec [(1 / 2)%R]) = Ok 0%R /\
  ~ (forall t : list R, accuracy (vec t) (vec t) = Ok 1%R) /\
  accuracy (vec (@nil float)) (vec (@nil float)) = Ok PrimFloat.nan.
Proof.
  assert (Hacc : accuracy (vec [(1 / 2)%R]) (vec [(1 / 2)%R]) = Ok 0%R).
  { unfold accuracy; cbn [ravel vec data map].
    rewrite broadcast2_same_length by reflexivity; cbn [bind combine map fst snd].
    unfold np_average; cbn [fdiv of_count feqb frint real_dtype].
    replace (1 / 2)%R with (IZR 0 + 1 / 2)%R at 1 by lra.
    rewrite Real_rint_half; cbn [Z.even].
    rewrite Real_eqb_neq by lra.
    cbn. f_equal. lra. }
  split; [exact Hacc | split].
  - intros Hall. specialize (Hall [(1 / 2)%R]). rewrite Hacc in Hall.
    injection Hall; lra.
  - vm_compute. reflexivity.
Qed.

(** C10.  [accuracy], and the rounding step of [accuracy_per_class],
    round half to even.  On the reals: a prediction halfway between [k]
    and [k + 1] rounds to the even one of the two, is counted correct
    against it and incorrect against the odd one.  On binary64 numbers:
    0.5 rounds to 0 and 1.5 rounds to 2 (2.5 to 2 as well), with the
    matching accuracies. *)
Theorem rounding_is_half_to_even :
  (forall k : Z,
      let even_nb := if Z.even k then k else (k + 1)%Z in
      let odd_nb := if Z.even k then (k + 1)%Z else k in
      @frint R _ (IZR k + 1 / 2)%R = IZR even_nb /\
      accuracy (vec [(IZR k + 1 / 2)%R]) (vec [IZR even_nb]) = Ok 1%R /\
      accuracy (vec [(IZR k + 1 / 2)%R]) (vec [IZR odd_nb]) = Ok 0%R) /\
  (map (@frint float _) [0.5; 1.5; 2.5]%float = [0; 2; 2]%float /\
   accuracy (vec [0.5]%float) (vec [0]%float) = Ok 1%float /\
   accuracy (vec [0.5]%float) (vec [1]%float) = Ok 0%float /\
   accuracy (vec [1.5]%float) (vec [2]%float) = Ok 1%float /\
   accuracy (vec [1.5]%float) (vec [1]%float) = Ok 0%float /\
   accuracy_per_class (vec [0.5; 1.5]%float) (vec [0; 2]%float)
   = Ok [(0, 1); (2, 1)]%float /\
   accuracy_per_class (vec [0.5; 1.5]%float) (vec [1; 1]%float)
   = Ok [(1, 0)]%float).
Proof.
  split.
  - intros k even_nb odd_nb.
    assert (Hr : @frint R _ (IZR k + 1 / 2)%R = IZR even_nb) by apply Real_rint_half.
    split; [exact Hr |].
    unfold accuracy; cbn [ravel vec data map].
    rewrite !broadcast2_same_length by reflexivity; cbn [bind combine map fst snd].
    rewrite Hr. unfold np_average; cbn [fdiv of_count feqb real_dtype].
    split.
    + rewrite Real_eqb_refl. cbn. f_equal. lra.
    + rewrite Real_eqb_neq.
      * cbn. f_equal. lra.
      * intros Heq. apply eq_IZR in Heq.
        subst even_nb odd_nb. destruct (Z.even k); lia.
  - vm_compute. repeat split; reflexivity.
Qed.

(** ** Degenerate inputs on binary64 numbers (C5) *)

Lemma Prim2SF_zero : Prim2SF PrimFloat.zero = S754_zero false.
Proof. vm_compute. reflexivity. Qed.

Lemma Prim2SF_infinity : Prim2SF PrimFloat.infinity = S754_infinity false.
Proof. vm_compute. reflexivity. Qed.

(** Whatever is divided by zero, the quotient is NaN or an infinity. *)
Lemma div_by_zero_not_finite (x y : float) :
  PrimFloat.is_zero y = true ->
  PrimFloat.is_finite (PrimFloat.div x y) = false.
Proof.
  unfold PrimFloat.is_zero, PrimFloat.is_finite, PrimFloat.is_nan, PrimFloat.is_infinity.
  rewrite !FloatAxioms.eqb_spec, abs_spec, div_spec, Prim2SF_zero, Prim2SF_infinity.
  unfold SF64div.
  destruct (Prim2SF y) as [sy | sy | | sy my ey];
    try discriminate; try (destruct sy; discriminate).
  intros _.
  destruct (Prim2SF x) as [sx | sx | | sx mx ex]; try reflexivity;
    destruct sx, sy; reflexivity.
Qed.

Lemma select_no_true {A : Type} (m : list bool) (xs : list A) :
  Forall (fun b => b = false) m -> select m xs = [].
Proof.
  intros Hm; revert xs; induction Hm as [|b m Hb _ IH]; intros [|x xs]; simpl;
    try reflexivity.
  subst b; apply IH.
Qed.

Lemma event_mask_no_event (d : list Z) :
  Forall (fun z => astype_int8 z <> 1%Z) d ->
  Forall (fun b => b = false) (event_mask d).
Proof.
  unfold event_mask; induction 1 as [|z d Hz _ IH]; simpl; constructor.
  - apply Z.eqb_neq; exact Hz.
  - exact IH.
Qed.

(** C5, as the code has it.  Degenerate inputs yield a non-finite
    number, not an exception.  [nmse] divides by the variance [np.var]
    computes: when that is a zero the result is NaN or an infinity.  A
    [*_survival] function called with no flag equal to 1 reduces over an
    empty selection: the result is NaN. *)
Theorem degenerate_inputs_not_finite
        (y_pred y_true : ndarray float) (p t : list float) (d : list Z) :
  length (ravel y_pred) = length (ravel y_true) ->
  PrimFloat.is_zero (np_var (ravel y_true)) = true ->
  length p = length t ->
  length d = length t ->
  Forall (fun z => astype_int8 z <> 1%Z) d ->
  (exists x, nmse y_pred y_true = Ok x /\ PrimFloat.is_finite x = false) /\
  (exists x, rmse_survival (vec p) (vec t) (kw_censor d) = Ok x /\ PrimFloat.is_nan x = true) /\
  (exists x, mse_survival (vec p) (vec t) (kw_censor d) = Ok x /\ PrimFloat.is_nan x = true) /\
  (exists x, mae_survival (vec p) (vec t) (kw_censor d) = Ok x /\ PrimFloat.is_nan x = true).
Proof.
  intros Hlen Hvar Hpt Hd Hno.
  split.
  - unfold nmse.
    rewrite (broadcast2_same_length _ _ _ Hlen); cbn [bind].
    eexists; split; [reflexivity |].
    apply div_by_zero_not_finite; exact Hvar.
  - assert (Hp : mask_index (event_mask d) p = Ok []).
    { rewrite mask_index_same_length by (rewrite event_mask_length; lia).
      now rewrite select_no_true by (apply event_mask_no_event; exact Hno). }
    assert (Ht : mask_index (event_mask d) t = Ok []).
    { rewrite mask_index_same_length by (rewrite event_mask_length; lia).
      now rewrite select_no_true by (apply event_mask_no_event; exact Hno). }
    unfold rmse_survival, mse_survival, mae_survival, kw_censor;
      cbn [censor_flag kw_get ravel vec data bind].
    rewrite Hp, Ht; cbn [bind].
    repeat split; eexists; (split; [reflexivity | vm_compute; reflexivity]).
Qed.

Lemma degenerate_inputs_not_finite_witness :
  (exists x, nmse (vec [1; 2]%float) (vec [3; 3]%float) = Ok x /\ PrimFloat.is_finite x = false) /\
  (exists x, rmse_survival (vec [1; 2]%float) (vec [3; 3]%float) (kw_censor [0; 0]%Z) = Ok x /\
             PrimFloat.is_nan x = true) /\
  (exists x, mse_survival (vec [1; 2]%float) (vec [3; 3]%float) (kw_censor [0; 0]%Z) = Ok x /\
             PrimFloat.is_nan x = true) /\
  (exists x, mae_survival (vec [1; 2]%float) (vec [3; 3]%float) (kw_censor [0; 0]%Z) = Ok x /\
             PrimFloat.is_nan x = true).
Proof.
  apply (@degenerate_inputs_not_finite (vec [1; 2]%float) (vec [3; 3]%float)
           [1; 2]%float [3; 3]%float [0; 0]%Z).
  - reflexivity.
  - vm_compute; reflexivity.
  - reflexivity.
  - reflexivity.
  - repeat constructor; discriminate.
Defined.

(** C5 at its failing input.  A constant ground truth has variance
    zero, but the variance [np.var] computes need not be: the mean of
    three times 0.1 is rounded above 0.1, the computed variance of
    [0.1, 0.1, 0.1] is 2^-112 and [nmse] against it is finite. *)
Lemma nmse_constant_truth_finite :
  PrimFloat.is_zero
    (np_var [0x1.999999999999ap-4; 0x1.999999999999ap-4; 0x1.999999999999ap-4]%float)
  = false /\
  exists x,
    nmse (vec [0; 0; 0]%float)
         (vec [0x1.999999999999ap-4; 0x1.999999999999ap-4; 0x1.999999999999ap-4]%float)
    = Ok x /\
    PrimFloat.is_finite x = true.
Proof.
  split; [vm_compute; reflexivity |].
  eexists; split; [vm_compute; reflexivity | vm_compute; reflexivity].
Qed.

(** ** The concordance index on one-dimensional inputs (C1) *)

Lemma select_map {A B : Type} (g : A -> B) (m : list bool) (xs : list A) :
  select m (map g xs) = map g (select m xs).
Proof.
  revert xs; induction m as [|b m IH]; intros [|x xs]; simpl; try reflexivity.
  destruct b; simpl; now rewrite IH.
Qed.

Lemma select_zip3 {A B C : Type} (m : list bool) (xs : list A) (ys : list B) (zs : list C) :
  length xs = length ys ->
  length xs = length zs ->
  zip3 (select m xs) (select m ys) (select m zs) = select m (zip3 xs ys zs).
Proof.
  revert xs ys zs; induction m as [|b m IH]; intros [|x xs] [|y ys] [|z zs] Hy Hz;
    simpl in *; try discriminate; try reflexivity.
  destruct b; simpl; rewrite IH by lia; reflexivity.
Qed.

Lemma chunks_map {A B : Type} (g : A -> B) (n k : nat) (l : list A) :
  chunks n k (map g l) = map (map g) (chunks n k l).
Proof.
  revert l; induction n as [|n IH]; intros l; simpl.
  - reflexivity.
  - now rewrite firstn_map, skipn_map, IH.
Qed.

Lemma chunks_singletons {A : Type} (xs : list A) :
  chunks (length xs) 1 xs = map (fun x => [x]) xs.
Proof.
  induction xs as [|x xs IH]; simpl.
  - reflexivity.
  - now rewrite IH.
Qed.

Lemma concat_singletons {A : Type} (xs : list A) :
  concat (map (fun x => [x]) xs) = xs.
Proof.
  induction xs as [|x xs IH]; simpl; [reflexivity | now rewrite IH].
Qed.

(** Masking and iterating a vector. *)
Lemma nd_mask_index_vec {A : Type} (m : list bool) (xs : list A) :
  length m = length xs ->
  nd_mask_index m (vec xs) = Ok (vec (select m xs)).
Proof.
  intros Hlen; unfold nd_mask_index, vec; cbn [shape data size_of fold_right].
  rewrite Hlen, Nat.eqb_refl, chunks_singletons, select_map, concat_singletons.
  now rewrite length_map.
Qed.

Lemma nd_iter_vec {A : Type} (xs : list A) :
  nd_iter (vec xs) = Ok (map scalar0 xs).
Proof.
  unfold nd_iter, vec; cbn [shape data size_of fold_right].
  now rewrite chunks_singletons, map_map.
Qed.

Lemma count_true_app (a b : list bool) :
  count_true (a ++ b) = count_true a + count_true b.
Proof. unfold count_true; now rewrite filter_app, length_app. Qed.

Lemma row_of_app (a b : list bool) :
  row_of (a ++ b) = add_summed (row_of a) (row_of b).
Proof.
  destruct a as [|x a]; [reflexivity |].
  destruct b as [|y b].
  - now rewrite app_nil_r.
  - cbn [row_of app add_summed].
    change (x :: a ++ y :: b) with ((x :: a) ++ (y :: b)).
    now rewrite count_true_app, length_app.
Qed.

Lemma add_summed_assoc (a b c : summed) :
  add_summed (add_summed a b) c = add_summed a (add_summed b c).
Proof.
  destruct a, b, c; simpl; try reflexivity.
  now rewrite !Nat.add_assoc.
Qed.

(** Adding up the rows gives the row of all the terms. *)
Lemma fold_rows (ls : list (list bool)) (acc : summed) :
  fold_left add_summed (map row_of ls) acc = add_summed acc (row_of (concat ls)).
Proof.
  revert acc; induction ls as [|l ls IH]; intros acc; simpl.
  - now destruct acc.
  - now rewrite IH, row_of_app, add_summed_assoc.
Qed.

Lemma at_indices_nth_error {A : Type} (xs : list A) (inds : list nat) :
  Forall (fun i => i < length xs) inds ->
  map Some (at_indices xs inds) = map (nth_error xs) inds.
Proof.
  unfold at_indices; induction 1 as [|i inds Hi _ IH]; simpl.
  - reflexivity.
  - destruct (nth_error xs i) eqn:E.
    + simpl; now rewrite IH.
    + apply nth_error_None in E; lia.
Qed.

(** Masking by a predicate on an aligned vector picks the indices the
    predicate holds at. *)
Lemma select_by_index {A B : Type} (P : B -> bool) (ys : list B) (xs : list A) :
  length ys = length xs ->
  select (map P ys) xs =
  at_indices xs (filter (fun j => match nth_error ys j with
                                  | Some y => P y
                                  | None => false
                                  end) (seq 0 (length ys))).
Proof.
  revert xs; induction ys as [|y ys IH]; intros [|x xs] Hlen; simpl in Hlen;
    try discriminate.
  - reflexivity.
  - cbn [length seq filter map select nth_error].
    rewrite filter_seq_shift; cbn [nth_error].
    specialize (IH xs ltac:(lia)).
    destruct (P y).
    + cbn [at_indices flat_map nth_error app].
      match goal with
      | |- _ = _ :: flat_map ?f (map S ?l) => change (flat_map f (map S l)) with (at_indices (x :: xs) (map S l))
      end.
      rewrite at_indices_cons. now rewrite IH.
    + rewrite at_indices_cons. exact IH.
Qed.

Lemma event_indices_lt (d : list Z) :
  Forall (fun i => i < length d) (event_indices d).
Proof.
  unfold event_indices; apply Forall_forall; intros i Hi.
  apply filter_In in Hi; destruct Hi as [Hi _].
  apply in_seq in Hi; lia.
Qed.

Lemma length_at_indices {A : Type} (xs : list A) (inds : list nat) :
  Forall (fun i => i < length xs) inds ->
  length (at_indices xs inds) = length inds.
Proof.
  intros Hin. rewrite <- (length_map Some), at_indices_nth_error by exact Hin.
  apply length_map.
Qed.

Lemma map_at_indices {A B : Type} (g : A -> B) (xs : list A) (inds : list nat) :
  map g (at_indices xs inds) =
  flat_map (fun j => match nth_error xs j with
                     | Some x => [g x]
                     | None => []
                     end) inds.
Proof.
  unfold at_indices; induction inds as [|i inds IH]; simpl.
  - reflexivity.
  - rewrite map_app, IH. now destruct (nth_error xs i).
Qed.

Lemma mapM_at_indices {A B : Type} (F : A -> result B) (G : nat -> B)
      (xs : list A) (inds : list nat) :
  (forall i, In i inds -> exists x, nth_error xs i = Some x /\ F x = Ok (G i)) ->
  mapM F (at_indices xs inds) = Ok (map G inds).
Proof.
  unfold at_indices; induction inds as [|i inds IH]; intros HF; simpl.
  - reflexivity.
  - destruct (HF i (or_introl eq_refl)) as (x & Hx & HFx).
    rewrite Hx; cbn [app mapM]. rewrite HFx; cbn [bind].
    rewrite IH by (intros j Hj; apply HF; right; exact Hj).
    reflexivity.
Qed.

Lemma length_zip3 {A B C : Type} (xs : list A) (ys : list B) (zs : list C) :
  length (zip3 xs ys zs) = Nat.min (length xs) (Nat.min (length ys) (length zs)).
Proof.
  revert ys zs; induction xs as [|x xs IH]; intros [|y ys] [|z zs]; simpl;
    try reflexivity.
  now rewrite IH.
Qed.

Lemma nth_error_zip3 {A B C : Type} (xs : list A) (ys : list B) (zs : list C)
      (i : nat) (x : A) (y : B) (z : C) :
  nth_error xs i = Some x -> nth_error ys i = Some y -> nth_error zs i = Some z ->
  nth_error (zip3 xs ys zs) i = Some (x, y, z).
Proof.
  revert xs ys zs; induction i as [|i IH]; intros [|x' xs] [|y' ys] [|z' zs];
    simpl; try discriminate.
  - congruence.
  - apply IH.
Qed.

Section Concordance.
Context {T : Type} `{Dtype T}.

Lemma concordance_terms_concat (tm : T -> T) (pred : list T) (d : list Z) (v : list T) :
  concordance_terms tm pred d v = concat (map (terms_at tm pred v) (event_indices d)).
Proof. unfold concordance_terms; now rewrite flat_map_concat_map. Qed.

Lemma float_lt_scalar0 (a b : T) : float_lt (scalar0 a) (scalar0 b) = Ok (fltb a b).
Proof. reflexivity. Qed.

Lemma inner_sum_scalars (yi : T) (ps : list T) :
  inner_sum (scalar0 yi) (map scalar0 ps) = Ok (row_of (map (fltb yi) ps)).
Proof.
  unfold inner_sum.
  rewrite (mapM_ok (float_lt (scalar0 yi)) (fun p => fltb yi (hd yi (data p))))
    by (intros a Ha; apply in_map_iff in Ha; destruct Ha as (b & <- & _); reflexivity).
  cbn [bind]. rewrite map_map; cbn [scalar0 data hd].
  reflexivity.
Qed.

Lemma comparison_set_lt (tm : T -> T) (v : list T) (i : nat) :
  Forall (fun j => j < length v) (comparison_set tm v i).
Proof.
  unfold comparison_set; apply Forall_forall; intros j Hj.
  apply filter_In in Hj; destruct Hj as [Hj _].
  apply in_seq in Hj; lia.
Qed.

(** The partners the code selects for event [i], compared with its
    prediction, are the terms of the reference computation. *)
Lemma partners_are_terms (pred v : list T) (i : nat) (vi yi : T) :
  length v = length pred ->
  nth_error v i = Some vi ->
  nth_error pred i = Some yi ->
  map (fltb yi)
      (select (map (fun vj => fltb (to_float32 vi) vj) (map to_float32 v)) pred)
  = terms_at to_float32 pred v i.
Proof.
  intros Hlen Hvi Hyi.
  rewrite select_by_index by (rewrite length_map; exact Hlen).
  rewrite map_at_indices, length_map.
  unfold terms_at, comparison_set. rewrite Hvi.
  erewrite (filter_ext (fun j => match nth_error (map to_float32 v) j with
                                 | Some y => fltb (to_float32 vi) y
                                 | None => false
                                 end)).
  - apply flat_map_ext; intros j. now rewrite Hyi.
  - intros j. rewrite nth_error_map. now destruct (nth_error v j).
Qed.

(** What [c_index_ours] computes on vectors: the rows of the reference
    terms, added up by the outer sum. *)
Lemma c_index_ours_vec (legacy : bool) (pred truth : list T) (d : list Z) (v : list T) :
  length pred = length truth ->
  length d = length truth ->
  length v = length truth ->
  int8_flags d ->
  c_index_ours legacy (vec pred) (vec truth) (kw_survival d v) =
  (nd <- outer_sum legacy (map (fun i => row_of (terms_at to_float32 pred v i))
                               (event_indices d)) ;;
   match nd with
   | Sum0d => Raise IndexError
   | SumPair num den => Ok (fdiv (of_count num) (of_count den))
   end).
Proof.
  intros Hp Hd Hv Hflags.
  unfold c_index_ours, kw_survival; cbn [censor_flag survival_time kw_get ravel vec data bind].
  fold (vec pred); fold (vec truth).
  rewrite mask_index_same_length by (rewrite event_mask_length, length_map; lia).
  cbn [bind].
  rewrite !nd_mask_index_vec by (rewrite event_mask_length; lia).
  cbn [bind]. rewrite !nd_iter_vec; cbn [bind].
  rewrite <- !select_map.
  rewrite select_zip3 by (rewrite !length_map; lia).
  rewrite event_mask_int8 by exact Hflags.
  rewrite select_event_indices by (rewrite length_zip3, !length_map; lia).
  rewrite (mapM_at_indices _ (fun i => row_of (terms_at to_float32 pred v i))).
  - reflexivity.
  - intros i Hi.
    assert (Hlt : i < length d)
      by (pose proof (event_indices_lt d) as Hall; rewrite Forall_forall in Hall; auto).
    destruct (nth_error v i) as [vi|] eqn:Hvi;
      [| apply nth_error_None in Hvi; lia].
    destruct (nth_error pred i) as [yi|] eqn:Hyi;
      [| apply nth_error_None in Hyi; lia].
    destruct (nth_error truth i) as [ti|] eqn:Hti;
      [| apply nth_error_None in Hti; lia].
    exists (to_float32 vi, scalar0 yi, scalar0 ti); split.
    + apply nth_error_zip3; rewrite nth_error_map.
      * now rewrite Hvi.
      * now rewrite Hyi.
      * now rewrite Hti.
    + cbn beta iota.
      rewrite nd_mask_index_vec by (rewrite !length_map; lia).
      cbn [bind]. rewrite nd_iter_vec; cbn [bind].
      rewrite inner_sum_scalars.
      now rewrite (partners_are_terms _ _ _ (eq_trans Hv (eq_sym Hp)) Hvi Hyi).
Qed.

(** C1, as the code has it.  On equal-length vectors with at least one
    event, every event having at least one partner, [c_index_ours] is
    the reference computation with the survival times compared after
    their rounding to float32: for every event sample [i], in input
    order, the partners are the samples [j] whose rounded time is
    strictly greater, censored or not; each partner adds 1 to the
    denominator, and 1 to the numerator when [pred[i] < pred[j]]
    strictly; the result is the total numerator over the total
    denominator.  This holds for both behaviours of NumPy on ragged
    sequences. *)
Theorem c_index_ours_is_reference_float32
        (legacy : bool) (pred truth : list T) (d : list Z) (v : list T) :
  length pred = length truth ->
  length d = length truth ->
  length v = length truth ->
  int8_flags d ->
  event_indices d <> [] ->
  (forall i, In i (event_indices d) -> comparison_set to_float32 v i <> []) ->
  c_index_ours legacy (vec pred) (vec truth) (kw_survival d v)
  = Ok (c_index_reference to_float32 pred d v).
Proof.
  intros Hp Hd Hv Hflags Hev Hpartner.
  rewrite c_index_ours_vec by assumption.
  assert (Hterm : forall i, In i (event_indices d) -> terms_at to_float32 pred v i <> []).
  { intros i Hi Hnil. apply (Hpartner i Hi).
    pose proof (comparison_set_lt to_float32 v i) as Hlt.
    assert (Hyi : exists yi, nth_error pred i = Some yi).
    { destruct (nth_error pred i) eqn:E; [eauto |].
      apply nth_error_None in E.
      pose proof (event_indices_lt d) as Hall; rewrite Forall_forall in Hall.
      specialize (Hall i Hi); lia. }
    destruct Hyi as [yi Hyi].
    unfold terms_at in Hnil; rewrite Hyi in Hnil.
    destruct (comparison_set to_float32 v i) as [|j J]; [reflexivity | exfalso].
    inversion Hlt as [|? ? Hj _]; subst.
    cbn [flat_map] in Hnil.
    destruct (nth_error pred j) eqn:E; [discriminate |].
    apply nth_error_None in E; lia. }
  unfold outer_sum.
  replace (forallb is_pair (map (fun i => row_of (terms_at to_float32 pred v i))
                                (event_indices d))) with true.
  2:{ symmetry; apply forallb_forall; intros r Hr.
      apply in_map_iff in Hr; destruct Hr as (i & <- & Hi).
      specialize (Hterm i Hi).
      now destruct (terms_at to_float32 pred v i). }
  cbn [orb bind].
  rewrite <- (map_map (terms_at to_float32 pred v) row_of), fold_rows.
  cbn [add_summed].
  rewrite <- concordance_terms_concat.
  unfold c_index_reference.
  destruct (concordance_terms to_float32 pred d v) as [|b bs] eqn:E; [exfalso | reflexivity].
  rewrite concordance_terms_concat in E.
  destruct (event_indices d) as [|i inds]; [congruence |].
  cbn [map concat] in E. apply app_eq_nil in E; destruct E as [E _].
  exact (Hterm i (or_introl eq_refl) E).
Qed.

(** With NumPy's older handling of ragged sequences one comparable
    pair is enough: events without partner add nothing. *)
Lemma c_index_ours_legacy (pred truth : list T) (d : list Z) (v : list T) :
  length pred = length truth ->
  length d = length truth ->
  length v = length truth ->
  int8_flags d ->
  concordance_terms to_float32 pred d v <> [] ->
  c_index_ours true (vec pred) (vec truth) (kw_survival d v)
  = Ok (c_index_reference to_float32 pred d v).
Proof.
  intros Hp Hd Hv Hflags Hne.
  rewrite c_index_ours_vec by assumption.
  unfold outer_sum; rewrite !orb_true_r; cbn [bind].
  rewrite <- (map_map (terms_at to_float32 pred v) row_of), fold_rows.
  cbn [add_summed].
  rewrite <- concordance_terms_concat.
  unfold c_index_reference.
  now destruct (concordance_terms to_float32 pred d v).
Qed.

(** Without any comparable pair the sum is a scalar and indexing it
    raises. *)
Lemma c_index_ours_no_pair (legacy : bool) (pred truth : list T) (d : list Z) (v : list T) :
  length pred = length truth ->
  length d = length truth ->
  length v = length truth ->
  int8_flags d ->
  (forall i, In i (event_indices d) -> terms_at to_float32 pred v i = []) ->
  c_index_ours legacy (vec pred) (vec truth) (kw_survival d v) = Raise IndexError.
Proof.
  intros Hp Hd Hv Hflags Hnil.
  rewrite c_index_ours_vec by assumption.
  assert (Hrows : map (fun i => row_of (terms_at to_float32 pred v i)) (event_indices d)
                  = map (fun _ => Sum0d) (event_indices d)).
  { apply map_ext_in; intros i Hi. now rewrite Hnil. }
  rewrite Hrows. unfold outer_sum.
  replace (forallb (fun s => negb (is_pair s)) (map (fun _ => Sum0d) (event_indices d)))
    with true
    by (symmetry; apply forallb_forall; intros r Hr;
        apply in_map_iff in Hr; destruct Hr as (i & <- & _); reflexivity).
  rewrite orb_true_r; cbn [orb bind].
  replace (fold_left add_summed (map (fun _ => Sum0d) (event_indices d)) Sum0d) with Sum0d
    by (clear; induction (event_indices d) as [|? ? IH]; [reflexivity | exact IH]).
  reflexivity.
Qed.

End Concordance.

Lemma c_index_ours_is_reference_float32_witness :
  c_index_ours false (vec [0; 1; -1]%float) (vec [0; 0; 0]%float)
               (kw_survival [1; 0; 0]%Z [1; 2; 3]%float)
  = Ok (c_index_reference to_float32 [0; 1; -1]%float [1; 0; 0]%Z [1; 2; 3]%float).
Proof.
  apply (@c_index_ours_is_reference_float32 float _ false
           [0; 1; -1]%float [0; 0; 0]%float [1; 0; 0]%Z [1; 2; 3]%float).
  - reflexivity.
  - reflexivity.
  - reflexivity.
  - repeat constructor; cbn; lia.
  - vm_compute; discriminate.
  - intros i Hi. vm_compute in Hi. destruct Hi as [<- | []].
    vm_compute; discriminate.
Defined.

(** C1 as stated fails on binary64 times that collide in float32:
    16777217 rounds to 16777216.  The event sample 0 has, by the
    reference computation on the times as given, the partners 1 and 2
    and the index 1/2; the code compares the rounded times, keeps only
    partner 2 and returns 0. *)
Lemma c_index_ours_float32_collision :
  c_index_ours false (vec [0; 1; -1]%float) (vec [0; 0; 0]%float)
               (kw_survival [1; 0; 0]%Z [16777216; 16777217; 16777218]%float)
  = Ok 0%float /\
  c_index_ours true (vec [0; 1; -1]%float) (vec [0; 0; 0]%float)
               (kw_survival [1; 0; 0]%Z [16777216; 16777217; 16777218]%float)
  = Ok 0%float /\
  c_index_reference (fun t => t) [0; 1; -1]%float [1; 0; 0]%Z
                    [16777216; 16777217; 16777218]%float
  = 0.5%float /\
  c_index_ours false (vec [0; 1; -1]%float) (vec [0; 0; 0]%float)
               (kw_survival [1; 0; 0]%Z [16777216; 16777217; 16777218]%float)
  <> Ok (c_index_reference (fun t => t) [0; 1; -1]%float [1; 0; 0]%Z
                           [16777216; 16777217; 16777218]%float).
Proof.
  repeat split; try (vm_compute; reflexivity).
  intros E.
  apply (f_equal (fun r => match r with
                           | Ok x => PrimFloat.eqb x 0
                           | Raise _ => false
                           end)) in E.
  vm_compute in E. discriminate.
Qed.

(** ** Order-preserving transforms of the predictions (C8) *)

Section Monotone.
Context {T : Type} `{Dtype T}.
Variable f : T -> T.
Hypothesis f_order : forall x y : T, fltb (f x) (f y) = fltb x y.

Lemma nd_mask_index_map (m : list bool) (a : ndarray T) :
  nd_mask_index m (nd_map f a) =
  match nd_mask_index m a with
  | Ok b => Ok (nd_map f b)
  | Raise e => Raise e
  end.
Proof.
  unfold nd_mask_index, nd_map; cbn [shape data].
  destruct (shape a) as [|n rest]; [reflexivity |].
  destruct (length m =? n); [| reflexivity].
  cbn [shape data].
  now rewrite chunks_map, select_map, <- concat_map, length_map.
Qed.

Lemma nd_iter_map (a : ndarray T) :
  nd_iter (nd_map f a) =
  match nd_iter a with
  | Ok l => Ok (map (nd_map f) l)
  | Raise e => Raise e
  end.
Proof.
  unfold nd_iter, nd_map; cbn [shape data].
  destruct (shape a) as [|n rest]; [reflexivity |].
  now rewrite chunks_map, !map_map.
Qed.

Lemma compare_data_map (xs ys : list T) :
  map (fun p => fltb (fst p) (snd p)) (combine (map f xs) (map f ys)) =
  map (fun p => fltb (fst p) (snd p)) (combine xs ys).
Proof.
  revert ys; induction xs as [|x xs IH]; intros [|y ys]; simpl; try reflexivity.
  now rewrite f_order, IH.
Qed.

Lemma float_lt_map (yi yj : ndarray T) :
  float_lt (nd_map f yi) (nd_map f yj) = float_lt yi yj.
Proof.
  unfold float_lt, nd_item, nd_map; cbn [shape data].
  now rewrite compare_data_map.
Qed.

Lemma inner_sum_map (yi : ndarray T) (partners : list (ndarray T)) :
  inner_sum (nd_map f yi) (map (nd_map f) partners) = inner_sum yi partners.
Proof.
  unfold inner_sum. f_equal.
  induction partners as [|p ps IH]; simpl.
  - reflexivity.
  - now rewrite float_lt_map, IH.
Qed.

Lemma mapM_zip3_map {A B C D : Type} (g : B -> B) (F G : A * B * C -> result D)
      (xs : list A) (ys : list B) (zs : list C) :
  (forall x y z, F (x, g y, z) = G (x, y, z)) ->
  mapM F (zip3 xs (map g ys) zs) = mapM G (zip3 xs ys zs).
Proof.
  intros HFG; revert ys zs; induction xs as [|x xs IH]; intros [|y ys] [|z zs];
    simpl; try reflexivity.
  now rewrite HFG, IH.
Qed.

(** [c_index_ours] does not change when [f] is applied to every
    prediction, whatever the shape of the arrays and also when the call
    raises. *)
Lemma c_index_ours_order_invariant (legacy : bool) (y_pred y_true : ndarray T)
      (kw : kwargs T) :
  c_index_ours legacy (nd_map f y_pred) y_true kw = c_index_ours legacy y_pred y_true kw.
Proof.
  unfold c_index_ours.
  destruct (kw_get (censor_flag kw)) as [cf | e]; [cbn [bind] | reflexivity].
  destruct (kw_get (survival_time kw)) as [st | e]; [cbn [bind] | reflexivity].
  destruct (mask_index (event_mask (ravel cf)) (map to_float32 (ravel st))) as [ev_v | e];
    [cbn [bind] | reflexivity].
  rewrite nd_mask_index_map.
  destruct (nd_mask_index (event_mask (ravel cf)) y_pred) as [ev_p | e];
    [cbn [bind] | reflexivity].
  rewrite nd_iter_map.
  destruct (nd_iter ev_p) as [rows_p | e]; [cbn [bind] | reflexivity].
  destruct (nd_mask_index (event_mask (ravel cf)) y_true) as [ev_t | e];
    [cbn [bind] | reflexivity].
  destruct (nd_iter ev_t) as [rows_t | e]; [cbn [bind] | reflexivity].
  erewrite mapM_zip3_map; [reflexivity |].
  intros vi yi yt; cbn beta iota.
  rewrite nd_mask_index_map.
  destruct (nd_mask_index (map (fun vj => fltb vi vj) (map to_float32 (ravel st))) y_pred)
    as [ps | e]; [cbn [bind] | reflexivity].
  rewrite nd_iter_map.
  destruct (nd_iter ps) as [rows | e]; [cbn [bind] | reflexivity].
  apply inner_sum_map.
Qed.

End Monotone.

Lemma Real_ltb_increasing (f : R -> R) :
  (forall x y : R, (x < y)%R -> (f x < f y)%R) ->
  forall x y : R, Real.ltb (f x) (f y) = Real.ltb x y.
Proof.
  intros Hf x y; unfold Real.ltb.
  destruct (Rlt_dec x y) as [Hxy | Hxy], (Rlt_dec (f x) (f y)) as [Hf' | Hf'];
    try reflexivity.
  - exfalso; apply Hf', Hf, Hxy.
  - exfalso. destruct (Rtotal_order x y) as [Hlt | [Heq | Hgt]].
    + exact (Hxy Hlt).
    + subst y; exact (Rlt_irrefl _ Hf').
    + apply Hf in Hgt. exact (Rlt_irrefl _ (Rlt_trans _ _ _ Hf' Hgt)).
Qed.

(** C8.  For every strictly increasing [f] on the reals, applying [f]
    to every prediction leaves [c_index_ours] unchanged: the result
    depends only on the order of the predictions. *)
Theorem c_index_ours_monotone_invariant
        (f : R -> R) (legacy : bool) (y_pred y_true : ndarray R) (kw : kwargs R) :
  (forall x y : R, (x < y)%R -> (f x < f y)%R) ->
  c_index_ours legacy (nd_map f y_pred) y_true kw = c_index_ours legacy y_pred y_true kw.
Proof.
  intros Hf.
  apply c_index_ours_order_invariant.
  exact (Real_ltb_increasing f Hf).
Qed.

Lemma c_index_ours_monotone_invariant_witness :
  c_index_ours false (nd_map (fun x => 2 * x + 1)%R (vec [0; 1; -1]%R)) (vec [0; 0; 0]%R)
               (kw_survival [1; 0; 0]%Z [1; 2; 3]%R)
  = c_index_ours false (vec [0; 1; -1]%R) (vec [0; 0; 0]%R)
                 (kw_survival [1; 0; 0]%Z [1; 2; 3]%R).
Proof.
  apply (@c_index_ours_monotone_invariant (fun x => 2 * x + 1)%R false).
  intros x y Hxy; lra.
Defined.

(** Evaluation of a concrete real-number comparison chain. *)
Ltac real_cases :=
  repeat (cbn [length seq nth filter Z.eqb Pos.eqb flat_map nth_error app map
               to_float32 fltb real_dtype];
          unfold Real.ltb;
          match goal with
          | |- context [Rlt_dec ?a ?b] => destruct (Rlt_dec a b); try (exfalso; lra)
          end).

(** On that input the index is defined: sample 0 is the only event,
    its partners are samples 1 and 2, one of the two is concordant. *)
Lemma c_index_ours_real_example :
  c_index_ours false (vec [0; 1; -1]%R) (vec [0; 0; 0]%R)
               (kw_survival [1; 0; 0]%Z [1; 2; 3]%R)
  = Ok (1 / 2)%R.
Proof.
  rewrite c_index_ours_vec by (try reflexivity; repeat constructor; cbn; lia).
  unfold outer_sum, terms_at, comparison_set, event_indices.
  real_cases.
  cbn; f_equal; try lra.
Qed.

(** ** Accuracy per class (C3, C9) *)

Lemma where_from_nonempty (i : nat) (mask : list bool) :
  In true mask -> where_from i mask <> [].
Proof.
  revert i; induction mask as [|b mask IH]; intros i Hin; simpl in *.
  - contradiction.
  - destruct b; [discriminate |].
    destruct Hin as [Hb | Hin]; [discriminate | now apply IH].
Qed.

Lemma where_from_S (i : nat) (mask : list bool) :
  where_from (S i) mask = map S (where_from i mask).
Proof.
  revert i; induction mask as [|b mask IH]; intros i; simpl.
  - reflexivity.
  - rewrite IH. now destruct b.
Qed.

Lemma length_np_where (mask : list bool) :
  length (np_where mask) = count_true mask.
Proof.
  unfold np_where, count_true. generalize 0.
  induction mask as [|b mask IH]; intros i; simpl.
  - reflexivity.
  - destruct b; simpl; now rewrite IH.
Qed.

Lemma length_select {A : Type} (mask : list bool) (xs : list A) :
  length mask = length xs -> length (select mask xs) = count_true mask.
Proof.
  unfold count_true.
  revert xs; induction mask as [|b mask IH]; intros [|x xs] Hlen; simpl in Hlen;
    try discriminate.
  - reflexivity.
  - cbn [select filter]. destruct b; cbn [length]; rewrite IH by lia; reflexivity.
Qed.

Lemma take_cons {A : Type} (x : A) (xs : list A) (inds : list nat) :
  take (x :: xs) (map S inds) = take xs inds.
Proof.
  unfold take; induction inds as [|i inds IH]; simpl.
  - reflexivity.
  - now rewrite IH.
Qed.

(** Indexing with [np.where(mask)] is indexing with the mask. *)
Lemma take_np_where {A : Type} (mask : list bool) (xs : list A) :
  length mask = length xs -> take xs (np_where mask) = Ok (select mask xs).
Proof.
  unfold np_where.
  revert xs; induction mask as [|b mask IH]; intros [|x xs] Hlen; simpl in Hlen;
    try discriminate.
  - reflexivity.
  - cbn [where_from select]. rewrite where_from_S.
    specialize (IH xs ltac:(lia)).
    destruct b.
    + change (take (x :: xs) (0 :: map S (where_from 0 mask)))
        with (r <- Ok x ;; rs <- take (x :: xs) (map S (where_from 0 mask)) ;; Ok (r :: rs)).
      cbn [bind]. now rewrite take_cons, IH.
    + now rewrite take_cons.
Qed.

(** The classes reported are those of the set, in its iteration order. *)
Lemma accuracy_per_class_classes {T : Type} `{Dtype T} `{SetOrder T}
      (y_pred y_true : ndarray T) (out : list (T * T)) :
  accuracy_per_class y_pred y_true = Ok out ->
  map fst out = py_set (ravel y_true).
Proof.
  unfold accuracy_per_class.
  generalize (py_set (ravel y_true)) as classes.
  intros classes; revert out; induction classes as [|c cs IH]; intros out; simpl.
  - intros [= <-]; reflexivity.
  - match goal with
    | |- context [take ?xs ?inds] => destruct (take xs inds) as [p | e]; [| discriminate]
    end.
    cbn [bind].
    match goal with
    | |- context [take ?xs ?inds] => destruct (take xs inds) as [t | e]; [| discriminate]
    end.
    cbn [bind].
    destruct (accuracy (vec p) (vec t)) as [acc | e]; [| discriminate].
    cbn [bind].
    match goal with
    | |- context [mapM ?F cs] => destruct (mapM F cs) as [rest | e] eqn:E; [| discriminate]
    end.
    cbn [bind]. intros [= <-]; simpl. f_equal. now apply IH.
Qed.

(** CPython's set holds, and yields, only keys it was given. *)
Lemma store_keys (tbl : list (option CPython.setentry)) (i : nat)
      (e : CPython.setentry) (x : float) :
  In x (CPython.keys (CPython.store tbl i e)) ->
  x = CPython.key e \/ In x (CPython.keys tbl).
Proof.
  unfold CPython.keys.
  revert i; induction tbl as [|s tbl IH]; intros i; cbn [CPython.store].
  - intros [].
  - destruct i as [|i]; cbn [flat_map]; rewrite !in_app_iff.
    + intros [[<- | []] | Hx]; [left; reflexivity | right; right; exact Hx].
    + intros [Hx | Hx]; [right; left; exact Hx |].
      destruct (IH i Hx) as [-> | Hx']; [left; reflexivity | right; right; exact Hx'].
Qed.

Lemma set_insert_clean_keys (msk : Z) (tbl : list (option CPython.setentry))
      (e : CPython.setentry) (x : float) :
  In x (CPython.keys (CPython.set_insert_clean msk tbl e)) ->
  x = CPython.key e \/ In x (CPython.keys tbl).
Proof.
  unfold CPython.set_insert_clean.
  destruct (CPython.find_slot tbl msk None (CPython.ehash e)); [apply store_keys | |];
    intros Hx; right; exact Hx.
Qed.

Lemma refill_keys (msk : Z) (entries : list CPython.setentry)
      (tbl : list (option CPython.setentry)) (x : float) :
  In x (CPython.keys (fold_left (CPython.set_insert_clean msk) entries tbl)) ->
  In x (map CPython.key entries) \/ In x (CPython.keys tbl).
Proof.
  revert tbl; induction entries as [|e entries IH]; intros tbl; cbn [fold_left map].
  - intros Hx; right; exact Hx.
  - intros Hx. destruct (IH _ Hx) as [Hx' | Hx']; [left; right; exact Hx' |].
    destruct (set_insert_clean_keys _ _ _ _ Hx') as [-> | Hx''];
      [left; left; reflexivity | right; exact Hx''].
Qed.

Lemma empty_table_keys (size : Z) : CPython.keys (CPython.empty_table size) = [].
Proof.
  unfold CPython.keys, CPython.empty_table.
  induction (Z.to_nat size) as [|n IH]; [reflexivity | exact IH].
Qed.

Lemma set_table_resize_keys (so : CPython.setobject) (minused : Z) (x : float) :
  In x (CPython.iter (CPython.set_table_resize so minused)) -> In x (CPython.iter so).
Proof.
  unfold CPython.iter, CPython.set_table_resize; cbn [CPython.table].
  intros Hx. apply refill_keys in Hx. rewrite empty_table_keys in Hx.
  destruct Hx as [Hx | []].
  unfold CPython.keys. generalize dependent (CPython.table so).
  induction l as [|s tbl IH]; cbn [flat_map map]; [intros [] |].
  rewrite map_app, !in_app_iff.
  intros [Hx | Hx]; [left | right; apply IH; exact Hx].
  destruct s; [exact Hx | destruct Hx].
Qed.

Lemma set_add_key_keys (so : CPython.setobject) (y x : float) :
  In x (CPython.iter (CPython.set_add_key so y)) -> x = y \/ In x (CPython.iter so).
Proof.
  unfold CPython.set_add_key; cbn zeta.
  destruct (CPython.find_slot _ _ _ _); [| intros Hx; right; exact Hx ..].
  match goal with
  | |- context [if ?b then _ else _] => destruct b
  end.
  - unfold CPython.iter; cbn [CPython.table]. apply store_keys.
  - intros Hx. apply set_table_resize_keys in Hx.
    unfold CPython.iter in Hx; cbn [CPython.table] in Hx. apply store_keys in Hx. exact Hx.
Qed.

Lemma float_set_yields_elements (l : list float) (x : float) :
  In x (py_set l) -> In x l.
Proof.
  cbn [py_set float_set]. unfold CPython.set_of.
  assert (Hgen : forall so,
             In x (CPython.iter (fold_left CPython.set_add_key l so)) ->
             In x l \/ In x (CPython.iter so)).
  { induction l as [|y l IH]; intros so; cbn [fold_left].
    - intros Hx; right; exact Hx.
    - intros Hx. destruct (IH _ Hx) as [Hx' | Hx']; [left; right; exact Hx' |].
      destruct (set_add_key_keys _ _ _ Hx') as [-> | Hx''];
        [left; left; reflexivity | right; exact Hx'']. }
  intros Hx. destruct (Hgen _ Hx) as [Hx' | Hx']; [exact Hx' |].
  vm_compute in Hx'. destruct Hx'.
Qed.

Section PerClassRun.
Context {T : Type} `{Dtype T} `{SetOrder T}.

(** One comparison per sample of the class. *)
Lemma class_hits_length (pred truth : list T) (c : T) :
  length pred = length truth ->
  length (class_hits pred truth c)
  = length (np_where (map (fun t => feqb t c) truth)).
Proof.
  intros Hlen. unfold class_hits.
  rewrite length_map, length_combine, length_map, length_np_where.
  rewrite !length_select by (rewrite !length_map; lia).
  apply Nat.min_id.
Qed.

(** On vectors of equal length [accuracy_per_class] returns: no index
    is out of range, no comparison fails to broadcast. *)
Lemma accuracy_per_class_run (pred truth : list T) :
  length pred = length truth ->
  accuracy_per_class (vec pred) (vec truth)
  = Ok (map (fun c => (c, np_average (class_hits pred truth c))) (py_set truth)).
Proof.
  intros Hlen.
  unfold accuracy_per_class; cbn [ravel vec data].
  apply mapM_ok; intros c _.
  rewrite !take_np_where by (rewrite !length_map; lia).
  cbn [bind].
  unfold accuracy; cbn [ravel vec data].
  rewrite broadcast2_same_length
    by (rewrite length_map; apply select_length_eq; rewrite length_map; exact Hlen).
  reflexivity.
Qed.

(** C9, as the code has it.  For equal-length vectors with a non-empty
    ground truth free of NaN (every element equals itself), and a set
    that yields elements of the sequence it was built from, in any
    order: [accuracy_per_class] returns, and every pair it returns has
    a class value drawn from the ground truth and an accuracy that is
    the quotient of two counts, the second the positive number of
    samples selected for the class, the first at most the second. *)
Theorem accuracy_per_class_well_defined (pred truth : list T) :
  length pred = length truth ->
  truth <> [] ->
  Forall (fun t => feqb t t = true) truth ->
  (forall c : T, In c (py_set truth) -> In c truth) ->
  exists out : list (T * T),
    accuracy_per_class (vec pred) (vec truth) = Ok out /\
    map fst out = py_set truth /\
    Forall (fun ca =>
              In (fst ca) truth /\
              exists num den : nat,
                den = length (np_where (map (fun t => feqb t (fst ca)) truth)) /\
                0 < den /\
                num <= den /\
                snd ca = fdiv (of_count num) (of_count den)) out.
Proof.
  intros Hlen _ Hnan Hset.
  eexists; split; [apply accuracy_per_class_run; exact Hlen |]; split.
  - rewrite map_map; cbn [fst]. apply map_id.
  - apply Forall_forall; intros ca Hca.
    apply in_map_iff in Hca; destruct Hca as (c & <- & Hc); cbn [fst snd].
    apply Hset in Hc. split; [exact Hc |].
    exists (count_true (class_hits pred truth c)), (length (class_hits pred truth c)).
    pose proof (class_hits_length pred truth c Hlen) as Hden.
    split; [exact Hden |]. split; [| split].
    + rewrite Hden.
      assert (Hne : np_where (map (fun t => feqb t c) truth) <> []).
      { unfold np_where; apply where_from_nonempty.
        apply in_map_iff; exists c; split; [| exact Hc].
        rewrite Forall_forall in Hnan; apply Hnan; exact Hc. }
      destruct (np_where (map (fun t => feqb t c) truth)); [congruence | simpl; lia].
    + apply count_true_le.
    + reflexivity.
Qed.

End PerClassRun.

Lemma accuracy_per_class_well_defined_witness :
  exists out : list (float * float),
    accuracy_per_class (vec [1; 2; 3]%float) (vec [1; 1; 2]%float) = Ok out /\
    map fst out = py_set [1; 1; 2]%float /\
    Forall (fun ca =>
              In (fst ca) [1; 1; 2]%float /\
              exists num den : nat,
                den = length (np_where (map (fun t => feqb t (fst ca)) [1; 1; 2]%float)) /\
                0 < den /\
                num <= den /\
                snd ca = fdiv (of_count num) (of_count den)) out.
Proof.
  apply (@accuracy_per_class_well_defined float _ _ [1; 2; 3]%float [1; 1; 2]%float).
  - reflexivity.
  - discriminate.
  - repeat constructor.
  - apply float_set_yields_elements.
Defined.

(** C9 at its failing input.  NaN differs from itself: the class NaN of
    a ground truth that holds NaN selects no sample, and the accuracy
    reported for it is the mean of nothing, NaN. *)
Lemma accuracy_per_class_nan_class :
  np_where (map (fun t => feqb t nan) [nan]) = [] /\
  accuracy_per_class (vec [1]%float) (vec [nan]) = Ok [(nan, nan)].
Proof. split; vm_compute; reflexivity. Qed.

(** Over the reals, where division is exact, the accuracies reported
    lie in [0, 1]. *)
Lemma accuracy_per_class_unit_interval (so : SetOrder R) (pred truth : list R) :
  length pred = length truth ->
  (forall c : R, In c (py_set truth) -> In c truth) ->
  exists out : list (R * R),
    accuracy_per_class (vec pred) (vec truth) = Ok out /\
    Forall (fun ca => (0 <= snd ca <= 1)%R) out.
Proof.
  intros Hlen Hset.
  eexists; split; [apply accuracy_per_class_run; exact Hlen |].
  apply Forall_forall; intros ca Hca.
  apply in_map_iff in Hca; destruct Hca as (c & <- & Hc); cbn [snd].
  apply np_average_unit_interval.
  assert (Hpos : length (class_hits pred truth c) <> 0).
  { rewrite (class_hits_length _ _ _ Hlen).
    assert (Hne : np_where (map (fun t => feqb t c) truth) <> []).
    { unfold np_where; apply where_from_nonempty.
      apply in_map_iff; exists c; split; [| apply Hset; exact Hc].
      cbn [feqb real_dtype]; apply Real_eqb_refl. }
    destruct (np_where (map (fun t => feqb t c) truth)); [congruence | discriminate]. }
  intros E; rewrite E in Hpos; apply Hpos; reflexivity.
Qed.

(** C3 at its failing inputs.  [set(y_true)] iterates its hash table,
    not the sorted values: the classes 1 and 8 come out as 8, 1, and
    the classes -1 and 1 as 1, -1.  There is one pair per distinct
    class. *)
Theorem accuracy_per_class_not_sorted :
  accuracy_per_class (vec [1; 8]%float) (vec [1; 8]%float)
  = Ok [(8, 1); (1, 1)]%float /\
  accuracy_per_class (vec [-1; 1; 1]%float) (vec [-1; 1; -1]%float)
  = Ok [(1, 1); (-1, 0.5)]%float.
Proof. vm_compute. split; reflexivity. Qed.

(** ** Flattening of the inputs (C4) *)

(** The functions that call [ravel] see only the flattened data. *)
Lemma raveling_metrics_flatten {T : Type} `{Dtype T} `{SetOrder T}
      (y_pred y_true : ndarray T) (kw : kwargs T) :
  rmse y_pred y_true = rmse (vec (ravel y_pred)) (vec (ravel y_true)) /\
  nmse y_pred y_true = nmse (vec (ravel y_pred)) (vec (ravel y_true)) /\
  accuracy y_pred y_true = accuracy (vec (ravel y_pred)) (vec (ravel y_true)) /\
  accuracy_per_class y_pred y_true
  = accuracy_per_class (vec (ravel y_pred)) (vec (ravel y_true)) /\
  rmse_survival y_pred y_true kw
  = rmse_survival (vec (ravel y_pred)) (vec (ravel y_true)) kw /\
  mse_survival y_pred y_true kw
  = mse_survival (vec (ravel y_pred)) (vec (ravel y_true)) kw /\
  mae_survival y_pred y_true kw
  = mae_survival (vec (ravel y_pred)) (vec (ravel y_true)) kw.
Proof. repeat split; reflexivity. Qed.

(** C4 at its failing input.  [c_index_ours] flattens the censor flags
    and the survival times but not the predictions: on a prediction
    array of shape (1, 2) the mask of length 2 does not fit the first
    axis and the call raises, while on the flattened array it returns
    1. *)
Theorem c_index_ours_does_not_flatten :
  let y_pred := {| shape := [1; 2]; data := [0.25; 0.5]%float |} in
  let y_true := {| shape := [1; 2]; data := [1; 2]%float |} in
  let kw := {| censor_flag := Some {| shape := [1; 2]; data := [1; 0]%Z |};
               survival_time := Some {| shape := [1; 2]; data := [1; 2]%float |} |} in
  c_index_ours false y_pred y_true kw = Raise IndexError /\
  c_index_ours true y_pred y_true kw = Raise IndexError /\
  c_index_ours false (vec (ravel y_pred)) (vec (ravel y_true)) kw = Ok 1%float /\
  c_index_ours true (vec (ravel y_pred)) (vec (ravel y_true)) kw = Ok 1%float.
Proof. vm_compute. repeat split; reflexivity. Qed.

(** * Further properties of the metrics *)

(** ** Shape faults and broadcasting *)

Lemma combine_repeat_r {A B C : Type} (g : A -> B -> C) (xs : list A) (c : B) :
  map (fun p => g (fst p) (snd p)) (combine xs (repeat c (length xs)))
  = map (fun x => g x c) xs.
Proof.
  induction xs as [|x xs IH]; simpl; [reflexivity | now rewrite IH].
Qed.

Lemma broadcast2_single_r {A B C : Type} (g : A -> B -> C) (xs : list A) (c : B) :
  broadcast2 g xs [c] = broadcast2 g xs (repeat c (length xs)).
Proof.
  rewrite (broadcast2_same_length g xs (repeat c (length xs)))
    by (now rewrite repeat_length).
  rewrite combine_repeat_r.
  unfold broadcast2.
  destruct xs as [|x [|x' xs]]; reflexivity.
Qed.

Section ShapeFaults.
Context {T : Type} `{Dtype T}.

(** [rmse] and [nmse] raise [ValueError] when the flattened lengths
    differ and neither is one: the subtraction cannot broadcast. *)
Theorem mismatched_lengths_raise (y_pred y_true : ndarray T) :
  length (ravel y_pred) <> length (ravel y_true) ->
  length (ravel y_pred) <> 1 ->
  length (ravel y_true) <> 1 ->
  rmse y_pred y_true = Raise ValueError /\
  nmse y_pred y_true = Raise ValueError.
Proof.
  intros Hne Hp Ht.
  assert (Hb : forall (A B C : Type) (g : A -> B -> C) (xs : list A) (ys : list B),
             length xs <> length ys -> length xs <> 1 -> length ys <> 1 ->
             broadcast2 g xs ys = Raise ValueError).
  { intros A B C g xs ys Hxy Hx Hy; unfold broadcast2.
    destruct (Nat.eqb_spec (length xs) (length ys)) as [E | _]; [contradiction |].
    destruct xs as [|x [|x' xs]]; destruct ys as [|y [|y' ys]];
      simpl in *; try reflexivity; congruence. }
  unfold rmse, nmse.
  rewrite !Hb by assumption.
  split; reflexivity.
Qed.

(** A ground truth of one element is broadcast against every
    prediction: [rmse] and [accuracy] give what they give on the
    ground truth repeated to the length of the predictions. *)
Theorem single_truth_is_broadcast (pred : list T) (c : T) :
  rmse (vec pred) (vec [c]) = rmse (vec pred) (vec (repeat c (length pred))) /\
  accuracy (vec pred) (vec [c]) = accuracy (vec pred) (vec (repeat c (length pred))).
Proof.
  unfold rmse, accuracy; cbn [ravel vec data].
  rewrite !broadcast2_single_r, length_map. split; reflexivity.
Qed.

End ShapeFaults.

Lemma mismatched_lengths_raise_witness :
  rmse (vec [1; 2; 3]%float) (vec [1; 2]%float) = Raise ValueError /\
  nmse (vec [1; 2; 3]%float) (vec [1; 2]%float) = Raise ValueError.
Proof.
  apply (@mismatched_lengths_raise float _ (vec [1; 2; 3]%float) (vec [1; 2]%float));
    cbn; lia.
Defined.

Lemma astype_int8_periodic (z k : Z) : astype_int8 (z + 256 * k) = astype_int8 z.
Proof.
  unfold astype_int8.
  replace (z + 256 * k + 128)%Z with (z + 128 + k * 256)%Z by lia.
  now rewrite Z.mod_add by lia.
Qed.

(** ** Keyword and mask faults *)

Section KeywordFaults.
Context {T : Type} `{Dtype T}.

(** Without [censor_flag] every survival metric raises [KeyError],
    whatever the arrays and whether [survival_time] is given; so does
    [c_index_ours], and also when [censor_flag] is given and
    [survival_time] is missing. *)
Theorem missing_keyword_raises (legacy : bool) (y_pred y_true : ndarray T)
        (cf : ndarray Z) (st : option (ndarray T)) :
  let no_flag := {| censor_flag := None; survival_time := st |} in
  let no_time := {| censor_flag := Some cf; survival_time := None |} in
  rmse_survival y_pred y_true no_flag = Raise KeyError /\
  mse_survival y_pred y_true no_flag = Raise KeyError /\
  mae_survival y_pred y_true no_flag = Raise KeyError /\
  c_index_ours legacy y_pred y_true no_flag = Raise KeyError /\
  c_index_ours legacy y_pred y_true no_time = Raise KeyError.
Proof.
  cbv zeta. repeat split; reflexivity.
Qed.

(** A censor-flag array whose size is not that of the flattened
    predictions makes [rmse_survival], [mse_survival] and
    [mae_survival] raise [IndexError], whatever the shape of the
    predictions. *)
Theorem flag_length_mismatch_raises (y_pred y_true : ndarray T) (cf : ndarray Z)
        (st : option (ndarray T)) :
  length (ravel cf) <> length (ravel y_pred) ->
  let kw := {| censor_flag := Some cf; survival_time := st |} in
  rmse_survival y_pred y_true kw = Raise IndexError /\
  mse_survival y_pred y_true kw = Raise IndexError /\
  mae_survival y_pred y_true kw = Raise IndexError.
Proof.
  intros Hflat kw.
  assert (Hm : mask_index (event_mask (ravel cf)) (ravel y_pred) = Raise IndexError).
  { unfold mask_index. rewrite event_mask_length.
    destruct (Nat.eqb_spec (length (ravel cf)) (length (ravel y_pred)));
      [contradiction | reflexivity]. }
  unfold rmse_survival, mse_survival, mae_survival, kw;
    cbn [censor_flag survival_time kw_get bind].
  rewrite Hm; cbn [bind].
  repeat split; reflexivity.
Qed.

(** [c_index_ours] does not flatten [y_pred]: it is the first axis of
    [y_pred] that the flags must fit.  When it has another size (or
    [y_pred] has no axis at all) the call raises [IndexError], also when
    the flags are as many as the elements of [y_pred]. *)
Theorem flag_axis_mismatch_raises (legacy : bool) (y_pred y_true : ndarray T)
        (cf : ndarray Z) (st : ndarray T) :
  hd_error (shape y_pred) <> Some (length (ravel cf)) ->
  c_index_ours legacy y_pred y_true {| censor_flag := Some cf; survival_time := Some st |}
  = Raise IndexError.
Proof.
  intros Haxis.
  assert (Hnd : nd_mask_index (event_mask (ravel cf)) y_pred = Raise IndexError).
  { unfold nd_mask_index. rewrite event_mask_length.
    destruct (shape y_pred) as [|n rest]; [reflexivity |].
    destruct (Nat.eqb_spec (length (ravel cf)) n) as [E | _]; [| reflexivity].
    exfalso; apply Haxis; cbn; now rewrite E. }
  unfold c_index_ours; cbn [censor_flag survival_time kw_get bind].
  rewrite Hnd; cbn [bind].
  unfold mask_index.
  now destruct (length (event_mask (ravel cf)) =? length (map to_float32 (ravel st))).
Qed.

(** [rmse_survival] is the square root of [mse_survival], on every
    input, raising what it raises. *)
Theorem rmse_survival_is_sqrt_mse_survival (y_pred y_true : ndarray T) (kw : kwargs T) :
  rmse_survival y_pred y_true kw = (m <- mse_survival y_pred y_true kw ;; Ok (fsqrt m)).
Proof.
  unfold rmse_survival, mse_survival.
  destruct (kw_get (censor_flag kw)) as [cf | e]; [cbn [bind] | reflexivity].
  destruct (mask_index (event_mask (ravel cf)) (ravel y_pred)) as [p | e];
    [cbn [bind] | reflexivity].
  destruct (mask_index (event_mask (ravel cf)) (ravel y_true)) as [t | e];
    [cbn [bind] | reflexivity].
  now destruct (broadcast2 fsub p t).
Qed.

(** The flags are compared after their cast to int8: two flag arrays
    that differ by multiples of 256 select the same samples (257 marks
    an event, as 1 does), in all four metrics that read the flags. *)
Theorem flags_wrap_modulo_256 (legacy : bool) (y_pred y_true : ndarray T)
        (d d' : list Z) (st : option (ndarray T)) :
  Forall2 (fun z z' => exists k : Z, z' = (z + 256 * k)%Z) d d' ->
  let kw := {| censor_flag := Some (vec d); survival_time := st |} in
  let kw' := {| censor_flag := Some (vec d'); survival_time := st |} in
  rmse_survival y_pred y_true kw' = rmse_survival y_pred y_true kw /\
  mse_survival y_pred y_true kw' = mse_survival y_pred y_true kw /\
  mae_survival y_pred y_true kw' = mae_survival y_pred y_true kw /\
  c_index_ours legacy y_pred y_true kw' = c_index_ours legacy y_pred y_true kw.
Proof.
  intros Hd.
  assert (Hm : event_mask d' = event_mask d).
  { unfold event_mask; induction Hd as [|z z' d d' [k ->] _ IH]; cbn [map].
    - reflexivity.
    - now rewrite IH, astype_int8_periodic. }
  intros kw kw'.
  unfold rmse_survival, mse_survival, mae_survival, c_index_ours, kw, kw';
    cbn [censor_flag survival_time kw_get bind ravel vec data].
  rewrite Hm. repeat split; reflexivity.
Qed.

End KeywordFaults.

(** Two flags for predictions of shape (2, 3): the flags fit the first
    axis, not the six flattened elements. *)
Lemma flag_length_mismatch_raises_witness :
  let y := {| shape := [2; 3]; data := [1; 2; 3; 4; 5; 6]%float |} in
  let kw := {| censor_flag := Some (vec [1; 0]%Z); survival_time := None |} in
  rmse_survival y y kw = Raise IndexError /\
  mse_survival y y kw = Raise IndexError /\
  mae_survival y y kw = Raise IndexError.
Proof.
  apply (@flag_length_mismatch_raises float _
           {| shape := [2; 3]; data := [1; 2; 3; 4; 5; 6]%float |}
           {| shape := [2; 3]; data := [1; 2; 3; 4; 5; 6]%float |}
           (vec [1; 0]%Z) None).
  cbn; lia.
Defined.

(** Six flags for predictions of shape (3, 2): the flags fit the six
    elements, not the first axis. *)
Lemma flag_axis_mismatch_raises_witness :
  let y := {| shape := [3; 2]; data := [1; 2; 3; 4; 5; 6]%float |} in
  c_index_ours false y y
               {| censor_flag := Some (vec [1; 0; 1; 0; 1; 0]%Z);
                  survival_time := Some (vec [1; 2; 3; 4; 5; 6]%float) |}
  = Raise IndexError.
Proof.
  apply (@flag_axis_mismatch_raises float _ false
           {| shape := [3; 2]; data := [1; 2; 3; 4; 5; 6]%float |}
           {| shape := [3; 2]; data := [1; 2; 3; 4; 5; 6]%float |}
           (vec [1; 0; 1; 0; 1; 0]%Z) (vec [1; 2; 3; 4; 5; 6]%float)).
  cbn; intros E; discriminate E.
Defined.

Lemma flags_wrap_modulo_256_witness :
  rmse_survival (vec [1; 2]%float) (vec [3; 3]%float)
                {| censor_flag := Some (vec [257; 0]%Z); survival_time := None |}
  = rmse_survival (vec [1; 2]%float) (vec [3; 3]%float)
                  {| censor_flag := Some (vec [1; 256]%Z); survival_time := None |}.
Proof.
  refine (proj1 (@flags_wrap_modulo_256 float _ false (vec [1; 2]%float) (vec [3; 3]%float)
                   [1; 256]%Z [257; 0]%Z None _)).
  repeat constructor; [exists 1%Z | exists (-1)%Z]; reflexivity.
Defined.

(** ** Survival metrics and the censored samples *)

Lemma select_all_true {A : Type} (m : list bool) (xs : list A) :
  Forall (fun b => b = true) m -> length m = length xs -> select m xs = xs.
Proof.
  intros Hm; revert xs; induction Hm as [|b m Hb _ IH]; intros [|x xs] Hlen;
    simpl in *; try discriminate; try reflexivity.
  subst b; f_equal; apply IH; lia.
Qed.

Lemma select_agree {A : Type} (m : list bool) (xs xs' : list A) :
  length xs = length m ->
  length xs' = length m ->
  (forall i, nth i m false = true -> nth_error xs i = nth_error xs' i) ->
  select m xs = select m xs'.
Proof.
  revert xs xs'; induction m as [|b m IH]; intros [|x xs] [|x' xs'] Hx Hx' Hag;
    simpl in *; try discriminate; try reflexivity.
  assert (Hrest : select m xs = select m xs').
  { apply IH; try lia. intros i Hi. exact (Hag (S i) Hi). }
  destruct b; [| exact Hrest].
  specialize (Hag 0 eq_refl); simpl in Hag. injection Hag as ->.
  now rewrite Hrest.
Qed.

Lemma event_mask_all_events (d : list Z) :
  Forall (fun z => astype_int8 z = 1%Z) d ->
  Forall (fun b => b = true) (event_mask d).
Proof.
  unfold event_mask; induction 1 as [|z d Hz _ IH]; simpl; constructor.
  - now rewrite Hz.
  - exact IH.
Qed.

Section Censoring.
Context {T : Type} `{Dtype T}.

(** With every sample observed (all flags 1) the survival metrics are
    the plain metrics of the whole vectors. *)
Theorem uncensored_survival_is_plain (y_pred y_true : ndarray T) (d : list Z) :
  length (ravel y_pred) = length (ravel y_true) ->
  length d = length (ravel y_true) ->
  Forall (fun z => astype_int8 z = 1%Z) d ->
  rmse_survival y_pred y_true (kw_censor d) = rmse y_pred y_true /\
  mse_survival y_pred y_true (kw_censor d)
  = Ok (mean_squared_error (ravel y_pred) (ravel y_true)) /\
  mae_survival y_pred y_true (kw_censor d)
  = Ok (mean_absolute_error (ravel y_pred) (ravel y_true)).
Proof.
  intros Hpt Hd Hall.
  pose proof (event_mask_all_events Hall) as Hm.
  unfold rmse_survival, mse_survival, mae_survival, rmse, kw_censor;
    cbn [censor_flag kw_get bind ravel vec data].
  rewrite !mask_index_same_length by (rewrite event_mask_length; unfold ravel in *; lia).
  cbn [bind].
  rewrite !select_all_true by (try exact Hm; rewrite event_mask_length; unfold ravel in *; lia).
  rewrite (broadcast2_same_length _ _ _ Hpt); cbn [bind].
  unfold mean_squared_error, mean_absolute_error, ravel. rewrite !map_map.
  repeat split; reflexivity.
Qed.

(** The survival metrics never read a censored sample: two inputs of
    the same length that agree wherever the flag marks an event give the
    same [rmse_survival], [mse_survival] and [mae_survival]. *)
Theorem censored_samples_are_ignored (pred pred' truth truth' : list T) (d : list Z) :
  length pred = length d ->
  length pred' = length d ->
  length truth = length d ->
  length truth' = length d ->
  (forall i, nth i (event_mask d) false = true ->
             nth_error pred i = nth_error pred' i /\
             nth_error truth i = nth_error truth' i) ->
  rmse_survival (vec pred) (vec truth) (kw_censor d)
  = rmse_survival (vec pred') (vec truth') (kw_censor d) /\
  mse_survival (vec pred) (vec truth) (kw_censor d)
  = mse_survival (vec pred') (vec truth') (kw_censor d) /\
  mae_survival (vec pred) (vec truth) (kw_censor d)
  = mae_survival (vec pred') (vec truth') (kw_censor d).
Proof.
  intros Hp Hp' Ht Ht' Hag.
  assert (Hsp : select (event_mask d) pred = select (event_mask d) pred')
    by (apply select_agree; rewrite ?event_mask_length; try assumption;
        intros i Hi; apply (Hag i Hi)).
  assert (Hst : select (event_mask d) truth = select (event_mask d) truth')
    by (apply select_agree; rewrite ?event_mask_length; try assumption;
        intros i Hi; apply (Hag i Hi)).
  unfold rmse_survival, mse_survival, mae_survival, kw_censor;
    cbn [censor_flag kw_get bind ravel vec data].
  rewrite !mask_index_same_length by (rewrite event_mask_length; lia).
  cbn [bind]. rewrite Hsp, Hst.
  repeat split; reflexivity.
Qed.

End Censoring.

Lemma uncensored_survival_is_plain_witness :
  rmse_survival (vec [1; 2]%float) (vec [3; 3]%float) (kw_censor [1; 1]%Z)
  = rmse (vec [1; 2]%float) (vec [3; 3]%float).
Proof.
  refine (proj1 (@uncensored_survival_is_plain float _ (vec [1; 2]%float) (vec [3; 3]%float)
                   [1; 1]%Z eq_refl eq_refl _)).
  repeat constructor.
Defined.

Lemma censored_samples_are_ignored_witness :
  rmse_survival (vec [1; 2]%float) (vec [3; 3]%float) (kw_censor [1; 0]%Z)
  = rmse_survival (vec [1; 7]%float) (vec [3; 9]%float) (kw_censor [1; 0]%Z).
Proof.
  refine (proj1 (@censored_samples_are_ignored float _ [1; 2]%float [1; 7]%float
                   [3; 3]%float [3; 9]%float [1; 0]%Z eq_refl eq_refl eq_refl eq_refl _)).
  intros [|[|i]] Hi; cbn in Hi; try discriminate; [split; reflexivity |].
  destruct i; discriminate.
Defined.

(** ** Regression errors over the reals *)

Lemma fold_left_Rplus (xs : list R) (a : R) :
  fold_left Rplus xs a = (a + Rsum xs)%R.
Proof.
  revert a; induction xs as [|x xs IH]; intros a; simpl.
  - lra.
  - rewrite IH. lra.
Qed.

Lemma Rsum_app (xs ys : list R) : Rsum (xs ++ ys) = (Rsum xs + Rsum ys)%R.
Proof.
  induction xs as [|x xs IH]; simpl; [lra | rewrite IH; lra].
Qed.

Lemma Rsum_split (n : nat) (xs : list R) :
  (Rsum (firstn n xs) + Rsum (skipn n xs))%R = Rsum xs.
Proof.
  now rewrite <- Rsum_app, firstn_skipn.
Qed.

(** The eight accumulators hold, between them, the sum of what they
    were given. *)
Lemma add8_real (r blk : list R) :
  length r = length blk ->
  length (add8 r blk) = length r /\ Rsum (add8 r blk) = (Rsum r + Rsum blk)%R.
Proof.
  unfold add8; cbn [fadd real_dtype].
  revert blk; induction r as [|x r IH]; intros [|y blk] Hlen; simpl in Hlen;
    try discriminate.
  - simpl; split; [reflexivity | lra].
  - destruct (IH blk ltac:(lia)) as [Hl Hs].
    cbn [combine map length Rsum fst snd]. rewrite Hl, Hs. split; [reflexivity | lra].
Qed.

Lemma fold_add8_real (blocks : list (list R)) (r : list R) :
  Forall (fun b => length b = length r) blocks ->
  length (fold_left add8 blocks r) = length r /\
  Rsum (fold_left add8 blocks r) = (Rsum r + Rsum (concat blocks))%R.
Proof.
  revert r; induction blocks as [|b blocks IH]; intros r Hall; cbn [fold_left concat].
  - simpl; split; [reflexivity | lra].
  - inversion Hall as [|? ? Hb Hrest]; subst.
    destruct (add8_real r b (eq_sym Hb)) as [Hl Hs].
    destruct (IH (add8 r b)) as [Hl' Hs'].
    { eapply Forall_impl; [| exact Hrest]. intros c Hc; cbn beta in *. now rewrite Hl. }
    rewrite Hl', Hs', Hl, Hs, Rsum_app. split; [reflexivity | lra].
Qed.

Lemma chunks_full {A : Type} (n k : nat) (l : list A) :
  n * k <= length l ->
  Forall (fun b => length b = k) (chunks n k l) /\
  concat (chunks n k l) = firstn (n * k) l.
Proof.
  revert l; induction n as [|n IH]; intros l Hlen; cbn [chunks concat].
  - split; [constructor | reflexivity].
  - destruct (IH (skipn k l)) as [Hall Hcat].
    { rewrite length_skipn; simpl in Hlen; lia. }
    split.
    + constructor; [| exact Hall]. rewrite length_firstn; simpl in Hlen; lia.
    + rewrite Hcat. cbn [Nat.mul]. rewrite firstn_skipn_comm.
      transitivity (firstn k (firstn (k + n * k) l) ++ skipn k (firstn (k + n * k) l));
        [| apply firstn_skipn].
      f_equal. rewrite firstn_firstn. f_equal. lia.
Qed.

Lemma tree8_real (r : list R) : length r = 8 -> tree8 r = Rsum r.
Proof.
  do 9 (destruct r as [|? r]; try discriminate).
  intros _; cbn [tree8 fadd real_dtype Rsum]. lra.
Qed.

Lemma block_sum_real (a : list R) : 8 <= length a -> block_sum a = Rsum a.
Proof.
  intros Hlen. unfold block_sum; cbn zeta.
  set (n := length a) in *.
  set (k := (n - n mod 8) / 8 - 1).
  assert (Hk : 8 + k * 8 = n - n mod 8).
  { subst k. pose proof (Nat.div_mod_eq n 8) as Hdm.
    assert (Hq : (n - n mod 8) / 8 = n / 8).
    { replace (n - n mod 8) with (n / 8 * 8) by lia. apply Nat.div_mul; lia. }
    rewrite Hq. assert (1 <= n / 8) by (apply Nat.div_le_lower_bound; lia). lia. }
  destruct (@chunks_full R k 8 (skipn 8 a)) as [Hall Hcat].
  { rewrite length_skipn; fold n. pose proof (Nat.mod_upper_bound n 8). lia. }
  destruct (@fold_add8_real (chunks k 8 (skipn 8 a)) (firstn 8 a)) as [Hl Hs].
  { eapply Forall_impl; [| exact Hall]. intros b Hb; cbn beta in *.
    rewrite length_firstn; fold n; lia. }
  rewrite fold_left_Rplus, tree8_real by (rewrite Hl, length_firstn; fold n; lia).
  rewrite Hs, Hcat, <- Hk.
  replace (8 + k * 8) with (k * 8 + 8) by lia.
  rewrite <- skipn_skipn.
  rewrite Rplus_assoc, Rsum_split, Rsum_split. reflexivity.
Qed.

(** Over the reals the order of the additions does not matter: the
    pairwise sum is the sum. *)
Lemma pairwise_sum_real (fuel : nat) (a : list R) : pairwise_sum fuel a = Rsum a.
Proof.
  revert a; induction fuel as [|fuel IH]; intros a; cbn [pairwise_sum].
  - destruct (Nat.ltb_spec (length a) 8).
    + rewrite fold_left_Rplus; cbn [of_count real_dtype INR]; lra.
    + destruct (length a <=? 128); apply block_sum_real; lia.
  - destruct (Nat.ltb_spec (length a) 8).
    + rewrite fold_left_Rplus; cbn [of_count real_dtype INR]; lra.
    + destruct (length a <=? 128); [apply block_sum_real; lia |].
      cbn zeta. rewrite !IH. cbn [fadd real_dtype]. apply Rsum_split.
Qed.

Lemma np_sum_real (xs : list R) : np_sum xs = Rsum xs.
Proof.
  unfold np_sum; cbn [fadd of_count real_dtype INR].
  rewrite pairwise_sum_real. lra.
Qed.

Lemma np_mean_real (xs : list R) : np_mean xs = (Rsum xs / INR (length xs))%R.
Proof.
  unfold np_mean; rewrite np_sum_real. reflexivity.
Qed.

Lemma sq_diffs_self (xs : list R) : Rsum (sq_diffs xs xs) = 0%R.
Proof.
  unfold sq_diffs; induction xs as [|x xs IH]; simpl; [reflexivity | rewrite IH; lra].
Qed.

Lemma rmse_real (pred truth : list R) :
  length pred = length truth ->
  rmse (vec pred) (vec truth)
  = Ok (sqrt (Rsum (sq_diffs pred truth) / INR (length pred))).
Proof.
  intros Hlen; unfold rmse; cbn [ravel vec data].
  rewrite (broadcast2_same_length _ _ _ Hlen); cbn [bind].
  rewrite np_mean_real, !map_map, length_map, length_combine, <- Hlen, Nat.min_id.
  reflexivity.
Qed.

(** Over the reals, on non-empty vectors of equal length, [rmse] is
    never negative, and it is zero when the predictions are the ground
    truth. *)
Theorem rmse_nonneg_and_zero_on_truth (pred truth : list R) :
  length pred = length truth ->
  truth <> [] ->
  (exists a : R, rmse (vec pred) (vec truth) = Ok a /\ (0 <= a)%R) /\
  rmse (vec truth) (vec truth) = Ok 0%R.
Proof.
  intros Hlen _; split.
  - rewrite rmse_real by exact Hlen.
    eexists; split; [reflexivity | apply sqrt_pos].
  - rewrite rmse_real by reflexivity.
    rewrite sq_diffs_self. unfold Rdiv. rewrite Rmult_0_l, sqrt_0. reflexivity.
Qed.

Lemma rmse_nonneg_and_zero_on_truth_witness :
  (exists a : R, rmse (vec [1; 2]%R) (vec [1; 3]%R) = Ok a /\ (0 <= a)%R) /\
  rmse (vec [1; 3]%R) (vec [1; 3]%R) = Ok 0%R.
Proof.
  apply (@rmse_nonneg_and_zero_on_truth [1; 2]%R [1; 3]%R eq_refl).
  discriminate.
Defined.

Lemma sq_diffs_sym (pred truth : list R) : sq_diffs pred truth = sq_diffs truth pred.
Proof.
  unfold sq_diffs; revert truth; induction pred as [|p pred IH]; intros [|t truth];
    simpl; try reflexivity.
  rewrite IH. f_equal. lra.
Qed.

(** [rmse] is symmetric in its two arguments. *)
Theorem rmse_symmetric (pred truth : list R) :
  length pred = length truth ->
  rmse (vec pred) (vec truth) = rmse (vec truth) (vec pred).
Proof.
  intros Hlen.
  rewrite (@rmse_real _ _ Hlen), (@rmse_real _ _ (eq_sym Hlen)), sq_diffs_sym, Hlen.
  reflexivity.
Qed.

Lemma rmse_symmetric_witness :
  rmse (vec [1; 2]%R) (vec [1; 3]%R) = rmse (vec [1; 3]%R) (vec [1; 2]%R).
Proof. exact (@rmse_symmetric [1; 2]%R [1; 3]%R eq_refl). Defined.

(** ** The sign of the root mean squared error on binary64 numbers *)

(** A square root is NaN, a zero or positive. *)
Lemma sqrt_not_negative (x : float) : PrimFloat.ltb (PrimFloat.sqrt x) 0 = false.
Proof.
  rewrite ltb_spec, sqrt_spec.
  change (Prim2SF 0) with (S754_zero false).
  unfold SF64sqrt, SFsqrt.
  destruct (Prim2SF x) as [s | s | | s m e]; try reflexivity.
  - destruct s; reflexivity.
  - destruct s; [reflexivity |].
    destruct (SFsqrt_core_binary prec emax (Z.pos m) e) as [[mz ez] lz].
    unfold binary_round_aux.
    destruct (shr_fexp prec emax mz ez lz) as [mrs' e'].
    destruct (shr_fexp prec emax _ e' loc_Exact) as [mrs'' e''].
    destruct (shr_m mrs''); try reflexivity.
    destruct (e'' <=? emax - prec)%Z; reflexivity.
Qed.

(** On binary64 numbers, whatever the arrays and the flags, a value
    returned by [rmse] or by [rmse_survival] is never below zero: it is
    NaN, a zero or positive. *)
Theorem rmse_never_negative (y_pred y_true : ndarray float) (kw : kwargs float) (a : float) :
  rmse y_pred y_true = Ok a \/ rmse_survival y_pred y_true kw = Ok a ->
  PrimFloat.ltb a 0 = false.
Proof.
  unfold rmse, rmse_survival. intros [Hrun | Hrun].
  - destruct (broadcast2 fsub (ravel y_pred) (ravel y_true)) as [diff | e];
      [cbn [bind] in Hrun | discriminate].
    assert (E : a = fsqrt (np_mean (map square diff))) by congruence.
    rewrite E. apply sqrt_not_negative.
  - destruct (kw_get (censor_flag kw)) as [cf | e]; [cbn [bind] in Hrun | discriminate].
    destruct (mask_index (event_mask (ravel cf)) (ravel y_pred)) as [p | e];
      [cbn [bind] in Hrun | discriminate].
    destruct (mask_index (event_mask (ravel cf)) (ravel y_true)) as [t | e];
      [cbn [bind] in Hrun | discriminate].
    destruct (broadcast2 fsub p t) as [diff | e]; [cbn [bind] in Hrun | discriminate].
    assert (E : a = fsqrt (np_mean (map square diff))) by congruence.
    rewrite E. apply sqrt_not_negative.
Qed.

Lemma rmse_never_negative_witness :
  exists a : float,
    rmse (vec [1; 2]%float) (vec [1; 3]%float) = Ok a /\ PrimFloat.ltb a 0 = false.
Proof.
  eexists; split; [vm_compute; reflexivity |].
  apply (@rmse_never_negative (vec [1; 2]%float) (vec [1; 3]%float) (kw_censor [])).
  left; vm_compute; reflexivity.
Defined.

(** ** Accuracy and the rounded predictions *)

Lemma count_true_full (bs : list bool) :
  count_true bs = length bs -> Forall (fun b => b = true) bs.
Proof.
  induction bs as [|b bs IH]; intros Hc; [constructor |].
  destruct b.
  - constructor; [reflexivity |]. apply IH.
    unfold count_true in *; simpl in Hc; lia.
  - exfalso. pose proof (count_true_le bs) as Hle.
    unfold count_true in *; simpl in Hc; lia.
Qed.

Lemma Real_eqb_eq (x y : R) : Real.eqb x y = true <-> x = y.
Proof.
  unfold Real.eqb; destruct (Req_dec_T x y); split; congruence.
Qed.

Lemma hits_all_iff (xs ys : list R) :
  length xs = length ys ->
  Forall (fun b => b = true) (map (fun p => Real.eqb (fst p) (snd p)) (combine xs ys))
  <-> xs = ys.
Proof.
  revert ys; induction xs as [|x xs IH]; intros [|y ys] Hlen; simpl in *;
    try discriminate.
  - split; [reflexivity | constructor].
  - split.
    + intros Hall; inversion Hall as [|? ? Hxy Hrest]; subst.
      apply Real_eqb_eq in Hxy. f_equal; [exact Hxy | apply IH; [lia | exact Hrest]].
    + intros [= -> ->]. constructor; [apply Real_eqb_refl | apply IH; [lia | reflexivity]].
Qed.

(** On non-empty vectors of equal length [accuracy] is 1 exactly when
    every rounded prediction equals its ground truth. *)
Theorem accuracy_one_iff_all_rounded_match (pred truth : list R) :
  length pred = length truth ->
  pred <> [] ->
  accuracy (vec pred) (vec truth) = Ok 1%R <-> map frint pred = truth.
Proof.
  intros Hlen Hne.
  unfold accuracy; cbn [ravel vec data].
  rewrite broadcast2_same_length by (rewrite length_map; exact Hlen); cbn [bind].
  unfold np_average; cbn [fdiv of_count feqb real_dtype].
  set (hits := map (fun p => Real.eqb (fst p) (snd p)) (combine (map frint pred) truth)).
  assert (Hn : length hits = length pred)
    by (unfold hits; rewrite length_map, length_combine, length_map, <- Hlen; apply Nat.min_id).
  assert (Hpos : (0 < INR (length hits))%R)
    by (apply lt_0_INR; rewrite Hn; destruct pred; [congruence | simpl; lia]).
  rewrite <- (hits_all_iff (map frint pred) truth) by (rewrite length_map; exact Hlen).
  fold hits. split.
  - intros [= Hq]. apply count_true_full, INR_eq.
    apply Rmult_eq_reg_r with (/ INR (length hits))%R.
    + unfold Rdiv in Hq. rewrite Hq. field. lra.
    + apply Rinv_neq_0_compat. lra.
  - intros Hall. rewrite (count_true_all Hall). f_equal. field. lra.
Qed.

Lemma accuracy_one_iff_all_rounded_match_witness :
  accuracy (vec [IZR 1; IZR 2]) (vec [IZR 1; IZR 2]) = Ok 1%R
  <-> map frint [IZR 1; IZR 2] = [IZR 1; IZR 2].
Proof.
  apply (@accuracy_one_iff_all_rounded_match [IZR 1; IZR 2] [IZR 1; IZR 2] eq_refl).
  discriminate.
Defined.

(** ** Per-class accuracy is the recall of the class *)

Section ClassRecall.
Context {T : Type} `{Dtype T} `{SetOrder T}.

(** The samples of class [c], and those of them whose prediction,
    rounded, cast to an integer and rounded again, is their ground
    truth. *)
Lemma class_hits_counts (c : T) (pred truth : list T) :
  length pred = length truth ->
  count_true (class_hits pred truth c)
  = length (filter (fun p => feqb (snd p) c
                             && feqb (frint (of_int64 (to_int64 (frint (fst p))))) (snd p))
                   (combine pred truth)) /\
  length (class_hits pred truth c) = length (filter (fun t => feqb t c) truth).
Proof.
  unfold class_hits; cbn zeta.
  revert truth; induction pred as [|p pred IH]; intros [|t truth] Hlen;
    simpl in Hlen; try discriminate.
  - split; reflexivity.
  - specialize (IH truth ltac:(lia)). destruct IH as [IHc IHl].
    cbn [map select combine filter fst snd].
    destruct (feqb t c) eqn:Etc.
    + cbn [map combine fst snd andb length].
      unfold count_true in *; cbn [filter].
      destruct (feqb (frint (of_int64 (to_int64 (frint p)))) t); cbn [length];
        split; congruence.
    + cbn [andb]. split; assumption.
Qed.

(** For every class [c] of the set, [accuracy_per_class] reports a
    fraction of the samples whose ground truth is [c]: those whose
    prediction, rounded, cast to a 64-bit integer and rounded again by
    [accuracy], equals their ground truth. *)
Theorem accuracy_per_class_is_class_recall (pred truth : list T) :
  length pred = length truth ->
  accuracy_per_class (vec pred) (vec truth)
  = Ok (map (fun c =>
               (c,
                fdiv (of_count
                        (length (filter
                                   (fun p =>
                                      feqb (snd p) c
                                      && feqb (frint (of_int64 (to_int64 (frint (fst p)))))
                                              (snd p))
                                   (combine pred truth))))
                     (of_count (length (filter (fun t => feqb t c) truth)))))
            (py_set truth)).
Proof.
  intros Hlen.
  rewrite accuracy_per_class_run by exact Hlen.
  f_equal. apply map_ext. intros c.
  destruct (class_hits_counts c pred truth Hlen) as [Hc Hl].
  unfold np_average. now rewrite Hc, Hl.
Qed.

End ClassRecall.

Lemma accuracy_per_class_is_class_recall_witness :
  accuracy_per_class (vec [1; 2; 0x1p70]%float) (vec [1; 1; 0x1p70]%float)
  = Ok (map (fun c =>
               (c,
                fdiv (of_count
                        (length (filter
                                   (fun p =>
                                      feqb (snd p) c
                                      && feqb (frint (of_int64 (to_int64 (frint (fst p)))))
                                              (snd p))
                                   (combine [1; 2; 0x1p70]%float [1; 1; 0x1p70]%float))))
                     (of_count (length (filter (fun t => feqb t c) [1; 1; 0x1p70]%float)))))
            (py_set [1; 1; 0x1p70]%float)).
Proof.
  exact (@accuracy_per_class_is_class_recall float _ _
           [1; 2; 0x1p70]%float [1; 1; 0x1p70]%float eq_refl).
Defined.

(** A prediction outside the 64-bit range is not its own class: the
    cast turns 2^70 into the least integer, and the class 2^70 of the
    ground truth [2^70] gets accuracy 0. *)
Lemma accuracy_per_class_cast_overflow :
  accuracy_per_class (vec [0x1p70]%float) (vec [0x1p70]%float) = Ok [(0x1p70, 0)]%float.
Proof. vm_compute; reflexivity. Qed.

(** ** Outcome of the concordance index on vectors *)

Lemma forallb_map_in {A B : Type} (f : B -> bool) (g : A -> B) (h : A -> bool) (l : list A) :
  (forall a, In a l -> f (g a) = h a) -> forallb f (map g l) = forallb h l.
Proof.
  induction l as [|a l IH]; intros Hfg; simpl.
  - reflexivity.
  - rewrite Hfg by now left. rewrite IH by (intros b Hb; apply Hfg; now right).
    reflexivity.
Qed.

Section Outcome.
Context {T : Type} `{Dtype T}.

Lemma terms_at_length (tm : T -> T) (pred v : list T) (i : nat) :
  length v = length pred ->
  i < length pred ->
  length (terms_at tm pred v i) = length (comparison_set tm v i).
Proof.
  intros Hlen Hi. unfold terms_at.
  destruct (nth_error pred i) as [yi|] eqn:Hyi; [| apply nth_error_None in Hyi; lia].
  pose proof (comparison_set_lt tm v i) as Hlt.
  induction Hlt as [|j J Hj _ IH]; [reflexivity |].
  cbn [flat_map]. rewrite length_app, IH.
  destruct (nth_error pred j) eqn:E; [reflexivity | apply nth_error_None in E; lia].
Qed.

Lemma concat_nil_all {A : Type} (ls : list (list A)) :
  concat ls = [] -> Forall (fun l => l = []) ls.
Proof.
  induction ls as [|l ls IH]; simpl; intros Hc; constructor.
  - now apply app_eq_nil in Hc.
  - apply IH. now apply app_eq_nil in Hc.
Qed.

(** What [c_index_ours] does on vectors of one length, in full.
    Without any comparable pair the nested sum is a scalar and indexing
    it raises [IndexError].  With a comparable pair the result is the
    reference index on float32 times, unless some event has no partner
    and NumPy refuses ragged sequences: then it is [ValueError]. *)
Theorem c_index_ours_outcome (legacy : bool) (pred truth : list T) (d : list Z) (v : list T) :
  length pred = length truth ->
  length d = length truth ->
  length v = length truth ->
  int8_flags d ->
  c_index_ours legacy (vec pred) (vec truth) (kw_survival d v)
  = match concordance_terms to_float32 pred d v with
    | [] => Raise IndexError
    | _ :: _ =>
        if legacy || all_partnered to_float32 v d
        then Ok (c_index_reference to_float32 pred d v)
        else Raise ValueError
    end.
Proof.
  intros Hp Hd Hv Hflags.
  rewrite c_index_ours_vec by assumption.
  assert (Hpair : forall i, In i (event_indices d) ->
                            is_pair (row_of (terms_at to_float32 pred v i))
                            = match comparison_set to_float32 v i with
                              | [] => false
                              | _ :: _ => true
                              end).
  { intros i Hi.
    assert (Hlt : i < length pred)
      by (pose proof (event_indices_lt d) as Hall; rewrite Forall_forall in Hall;
          specialize (Hall i Hi); lia).
    pose proof (@terms_at_length to_float32 pred v i ltac:(lia) Hlt) as Hl.
    destruct (terms_at to_float32 pred v i), (comparison_set to_float32 v i);
      simpl in Hl; try discriminate; reflexivity. }
  assert (Hall : forallb is_pair (map (fun i => row_of (terms_at to_float32 pred v i))
                                      (event_indices d))
                 = all_partnered to_float32 v d).
  { unfold all_partnered. apply forallb_map_in. exact Hpair. }
  unfold outer_sum. rewrite Hall.
  rewrite <- (map_map (terms_at to_float32 pred v) row_of), fold_rows.
  cbn [add_summed]. rewrite <- concordance_terms_concat.
  unfold c_index_reference.
  destruct (concordance_terms to_float32 pred d v) as [|b bs] eqn:E.
  - rewrite concordance_terms_concat in E. apply concat_nil_all in E.
    replace (forallb (fun s => negb (is_pair s))
                     (map row_of (map (terms_at to_float32 pred v) (event_indices d))))
      with true.
    + rewrite orb_true_r. reflexivity.
    + symmetry. apply forallb_forall. intros r Hr.
      apply in_map_iff in Hr. destruct Hr as (l & <- & Hl).
      rewrite Forall_forall in E. now rewrite (E l Hl).
  - replace (forallb (fun s => negb (is_pair s))
                     (map row_of (map (terms_at to_float32 pred v) (event_indices d))))
      with false.
    + rewrite orb_false_r, (orb_comm (all_partnered to_float32 v d) legacy).
      now destruct (legacy || all_partnered to_float32 v d).
    + symmetry. apply not_true_is_false. intros Hf.
      rewrite forallb_forall in Hf.
      rewrite concordance_terms_concat in E.
      assert (Hnil : Forall (fun l => l = []) (map (terms_at to_float32 pred v) (event_indices d))).
      { apply Forall_forall. intros l Hl.
        specialize (Hf (row_of l) (in_map row_of _ _ Hl)).
        now destruct l. }
      clear Hf. induction Hnil as [|l ls Hl _ IH]; [discriminate |].
      subst l. exact (IH E).
Qed.

End Outcome.

Lemma c_index_ours_outcome_witness :
  c_index_ours false (vec [0; 1; -1]%float) (vec [0; 0; 0]%float)
               (kw_survival [1; 1; 0]%Z [1; 2; 1]%float)
  = match concordance_terms to_float32 [0; 1; -1]%float [1; 1; 0]%Z [1; 2; 1]%float with
    | [] => Raise IndexError
    | _ :: _ =>
        if false || all_partnered to_float32 [1; 2; 1]%float [1; 1; 0]%Z
        then Ok (c_index_reference to_float32 [0; 1; -1]%float [1; 1; 0]%Z [1; 2; 1]%float)
        else Raise ValueError
    end.
Proof.
  apply (@c_index_ours_outcome float _ false [0; 1; -1]%float [0; 0; 0]%float
           [1; 1; 0]%Z [1; 2; 1]%float eq_refl eq_refl eq_refl).
  repeat constructor; cbn; lia.
Defined.

(** ** Values of the concordance index over the reals *)

(** When [c_index_ours] returns on vectors, it returns the reference
    index of at least one comparable pair. *)
Lemma c_index_ours_value {T : Type} `{Dtype T}
      (legacy : bool) (pred truth : list T) (d : list Z) (v : list T) (c : T) :
  length pred = length truth ->
  length d = length truth ->
  length v = length truth ->
  int8_flags d ->
  c_index_ours legacy (vec pred) (vec truth) (kw_survival d v) = Ok c ->
  c = c_index_reference to_float32 pred d v /\
  concordance_terms to_float32 pred d v <> [].
Proof.
  intros Hp Hd Hv Hflags.
  rewrite c_index_ours_vec by assumption.
  unfold outer_sum.
  match goal with
  | |- context [if ?b then _ else _] => destruct b; [cbn [bind] | discriminate]
  end.
  rewrite <- (map_map (terms_at to_float32 pred v) row_of), fold_rows.
  cbn [add_summed]. rewrite <- concordance_terms_concat.
  unfold c_index_reference.
  destruct (concordance_terms to_float32 pred d v); [discriminate |].
  intros [= <-]. split; [reflexivity | discriminate].
Qed.

Lemma Real_ltb_lt (x y : R) : Real.ltb x y = true <-> (x < y)%R.
Proof.
  unfold Real.ltb; destruct (Rlt_dec x y); split; intros; try assumption;
    try reflexivity; try discriminate; contradiction.
Qed.

(** Every term of the reference computation compares an event sample
    with a sample of strictly greater time. *)
Lemma concordance_terms_real (pred : list R) (d : list Z) (v : list R) (P : bool -> Prop) :
  (forall i j yi yj,
      nth i d 0%Z = 1%Z ->
      (nth i v 0 < nth j v 0)%R ->
      nth_error pred i = Some yi ->
      nth_error pred j = Some yj ->
      P (Real.ltb yi yj)) ->
  Forall P (concordance_terms to_float32 pred d v).
Proof.
  intros HP. unfold concordance_terms.
  apply Forall_forall; intros b Hb.
  apply in_flat_map in Hb; destruct Hb as (i & Hi & Hb).
  unfold terms_at in Hb.
  apply in_flat_map in Hb; destruct Hb as (j & Hj & Hb).
  unfold event_indices in Hi; apply filter_In in Hi; destruct Hi as [_ Hi].
  apply Z.eqb_eq in Hi.
  unfold comparison_set in Hj; apply filter_In in Hj; destruct Hj as [_ Hj].
  destruct (nth_error v i) as [vi|] eqn:Evi; [| discriminate].
  destruct (nth_error v j) as [vj|] eqn:Evj; [| discriminate].
  cbn [to_float32 fltb real_dtype] in Hj. apply Real_ltb_lt in Hj.
  destruct (nth_error pred i) as [yi|] eqn:Eyi; [| contradiction].
  destruct (nth_error pred j) as [yj|] eqn:Eyj; [| contradiction].
  destruct Hb as [<- | []].
  apply (HP i j yi yj Hi); [| assumption | assumption].
  now rewrite (nth_error_nth _ _ 0%R Evi), (nth_error_nth _ _ 0%R Evj).
Qed.

(** A ranking that agrees with the times scores 1: if every event
    sample is predicted strictly below every sample of greater time
    (the samples are those of the input, [i] and [j] range over its
    indices), whatever [c_index_ours] returns is 1. *)
Theorem c_index_ours_concordant_is_one
        (legacy : bool) (pred truth : list R) (d : list Z) (v : list R) (c : R) :
  length pred = length truth ->
  length d = length truth ->
  length v = length truth ->
  int8_flags d ->
  (forall i j, i < length truth -> j < length truth ->
               nth i d 0%Z = 1%Z -> (nth i v 0 < nth j v 0)%R ->
               (nth i pred 0 < nth j pred 0)%R) ->
  c_index_ours legacy (vec pred) (vec truth) (kw_survival d v) = Ok c ->
  c = 1%R.
Proof.
  intros Hp Hd Hv Hflags Hrank Hrun.
  destruct (@c_index_ours_value R _ legacy pred truth d v c Hp Hd Hv Hflags Hrun) as [-> Hne].
  unfold c_index_reference; cbn [fdiv of_count real_dtype].
  rewrite count_true_all.
  - apply Rdiv_diag, not_0_INR.
    destruct (concordance_terms to_float32 pred d v); [congruence | discriminate].
  - apply concordance_terms_real. intros i j yi yj Hi Hij Eyi Eyj.
    apply Real_ltb_lt.
    rewrite <- (nth_error_nth _ _ 0%R Eyi), <- (nth_error_nth _ _ 0%R Eyj).
    apply Hrank; try assumption; rewrite <- Hp; apply nth_error_Some; congruence.
Qed.

(** Ties never count: when all predictions are equal, whatever
    [c_index_ours] returns is 0. *)
Theorem c_index_ours_constant_is_zero
        (legacy : bool) (y : R) (pred truth : list R) (d : list Z) (v : list R) (c : R) :
  length pred = length truth ->
  length d = length truth ->
  length v = length truth ->
  int8_flags d ->
  Forall (fun x => x = y) pred ->
  c_index_ours legacy (vec pred) (vec truth) (kw_survival d v) = Ok c ->
  c = 0%R.
Proof.
  intros Hp Hd Hv Hflags Hconst Hrun.
  destruct (@c_index_ours_value R _ legacy pred truth d v c Hp Hd Hv Hflags Hrun) as [-> Hne].
  unfold c_index_reference; cbn [fdiv of_count real_dtype].
  assert (Hfalse : Forall (fun b => b = false) (concordance_terms to_float32 pred d v)).
  { apply concordance_terms_real. intros i j yi yj _ _ Eyi Eyj.
    rewrite Forall_forall in Hconst.
    rewrite (Hconst yi (nth_error_In _ _ Eyi)), (Hconst yj (nth_error_In _ _ Eyj)).
    apply not_true_is_false. intros Hlt. apply Real_ltb_lt in Hlt. lra. }
  replace (count_true (concordance_terms to_float32 pred d v)) with 0%nat.
  - cbn [INR]. unfold Rdiv. ring.
  - unfold count_true. clear Hne Hrun.
    induction Hfalse as [|b bs Hb _ IH]; [reflexivity | subst b; exact IH].
Qed.

Lemma c_index_ours_concordant_is_one_witness :
  c_index_reference to_float32 [1; 2; 3]%R [1; 1; 0]%Z [1; 2; 3]%R = 1%R.
Proof.
  apply (@c_index_ours_concordant_is_one true [1; 2; 3]%R [0; 0; 0]%R [1; 1; 0]%Z [1; 2; 3]%R
           _ eq_refl eq_refl eq_refl).
  - repeat constructor; cbn; lia.
  - intros i j _ _ _ Hij; exact Hij.
  - apply c_index_ours_legacy; try reflexivity.
    + repeat constructor; cbn; lia.
    + unfold concordance_terms, terms_at, comparison_set, event_indices.
      real_cases. discriminate.
Defined.

Lemma c_index_ours_constant_is_zero_witness :
  c_index_reference to_float32 [5; 5; 5]%R [1; 1; 0]%Z [1; 2; 3]%R = 0%R.
Proof.
  apply (@c_index_ours_constant_is_zero true 5%R [5; 5; 5]%R [0; 0; 0]%R [1; 1; 0]%Z [1; 2; 3]%R
           _ eq_refl eq_refl eq_refl).
  - repeat constructor; cbn; lia.
  - repeat constructor.
  - apply c_index_ours_legacy; try reflexivity.
    + repeat constructor; cbn; lia.
    + unfold concordance_terms, terms_at, comparison_set, event_indices.
      real_cases. discriminate.
Defined.

(** ** The concordance index on arrays of any shape *)

Lemma mapM_Forall {A B : Type} (F : A -> result B) (P : B -> Prop)
      (l : list A) (rs : list B) :
  (forall a r, F a = Ok r -> P r) -> mapM F l = Ok rs -> Forall P rs.
Proof.
  intros HF; revert rs; induction l as [|a l IH]; intros rs; simpl.
  - intros [= <-]; constructor.
  - destruct (F a) as [r | e] eqn:Ea; [cbn [bind] | discriminate].
    destruct (mapM F l) as [rs' | e]; [cbn [bind] | discriminate].
    intros [= <-]. constructor; [exact (HF a r Ea) | now apply IH].
Qed.

Lemma add_summed_sound (a b : summed) :
  sound_sum a -> sound_sum b -> sound_sum (add_summed a b).
Proof.
  destruct a, b; simpl; intros; try assumption; try tauto. lia.
Qed.

Lemma fold_summed_sound (rows : list summed) (acc : summed) :
  Forall sound_sum rows -> sound_sum acc -> sound_sum (fold_left add_summed rows acc).
Proof.
  intros Hrows; revert acc; induction Hrows as [|r rows Hr _ IH]; intros acc Hacc; simpl.
  - exact Hacc.
  - apply IH, add_summed_sound; assumption.
Qed.

Section AnyShape.
Context {T : Type} `{Dtype T}.

Lemma inner_sum_sound (yi : ndarray T) (partners : list (ndarray T)) (s : summed) :
  inner_sum yi partners = Ok s -> sound_sum s.
Proof.
  unfold inner_sum.
  destruct (mapM (float_lt yi) partners) as [cmp | e]; [cbn [bind] | discriminate].
  intros [= <-]. destruct cmp as [|b cmp]; [exact I |].
  split; [apply count_true_le | simpl; lia].
Qed.

(** Whatever the shapes, a value returned by [c_index_ours] is a count
    of concordant pairs over a positive count of comparable pairs. *)
Lemma c_index_ours_is_fraction (legacy : bool) (y_pred y_true : ndarray T)
      (kw : kwargs T) (c : T) :
  c_index_ours legacy y_pred y_true kw = Ok c ->
  exists num den : nat,
    c = fdiv (of_count num) (of_count den) /\ num <= den /\ 0 < den.
Proof.
  unfold c_index_ours.
  destruct (kw_get (censor_flag kw)) as [cf | e]; [cbn [bind] | discriminate].
  destruct (kw_get (survival_time kw)) as [st | e]; [cbn [bind] | discriminate].
  destruct (mask_index _ _) as [ev_v | e]; [cbn [bind] | discriminate].
  destruct (nd_mask_index _ y_pred) as [ev_p | e]; [cbn [bind] | discriminate].
  destruct (nd_iter ev_p) as [rows_p | e]; [cbn [bind] | discriminate].
  destruct (nd_mask_index _ y_true) as [ev_t | e]; [cbn [bind] | discriminate].
  destruct (nd_iter ev_t) as [rows_t | e]; [cbn [bind] | discriminate].
  destruct (mapM _ (zip3 ev_v rows_p rows_t)) as [rows | e] eqn:Erows;
    [cbn [bind] | discriminate].
  assert (Hrows : Forall sound_sum rows).
  { eapply mapM_Forall; [| exact Erows].
    intros [[vi yi] yt] r; cbn beta iota.
    destruct (nd_mask_index _ y_pred) as [ps | e]; [cbn [bind] | discriminate].
    destruct (nd_iter ps) as [partners | e]; [cbn [bind] | discriminate].
    apply inner_sum_sound. }
  unfold outer_sum.
  match goal with
  | |- context [if ?b then _ else _] => destruct b; [cbn [bind] | discriminate]
  end.
  pose proof (@fold_summed_sound rows Sum0d Hrows I) as Hs.
  destruct (fold_left add_summed rows Sum0d) as [|num den]; [discriminate |].
  intros [= <-]. exists num, den. cbn in Hs. tauto.
Qed.

End AnyShape.

(** Over the reals, whatever the shapes and the keyword arrays, a value
    returned by [c_index_ours] lies in [0, 1]. *)
Theorem c_index_ours_in_unit_interval
        (legacy : bool) (y_pred y_true : ndarray R) (kw : kwargs R) (c : R) :
  c_index_ours legacy y_pred y_true kw = Ok c ->
  (0 <= c <= 1)%R.
Proof.
  intros Hrun.
  destruct (@c_index_ours_is_fraction R _ legacy y_pred y_true kw c Hrun)
    as (num & den & -> & Hle & Hpos).
  cbn [fdiv of_count real_dtype].
  now apply fraction_unit_interval.
Qed.

Lemma c_index_ours_in_unit_interval_witness :
  (0 <= 1 / 2 <= 1)%R.
Proof.
  apply (@c_index_ours_in_unit_interval false (vec [0; 1; -1]%R) (vec [0; 0; 0]%R)
           (kw_survival [1; 0; 0]%Z [1; 2; 3]%R) (1 / 2)%R).
  exact c_index_ours_real_example.
Defined.

(** ** What the concordance index reads of [y_true] and of the shape *)

Lemma length_chunks {A : Type} (n k : nat) (l : list A) : length (chunks n k l) = n.
Proof.
  revert l; induction n as [|n IH]; intros l; simpl; [reflexivity | now rewrite IH].
Qed.

Lemma mapM_zip3_third {A B C C' D : Type} (F : A * B * C -> result D)
      (F' : A * B * C' -> result D) (xs : list A) (ys : list B)
      (zs : list C) (zs' : list C') :
  length zs = length zs' ->
  (forall x y z z', F (x, y, z) = F' (x, y, z')) ->
  mapM F (zip3 xs ys zs) = mapM F' (zip3 xs ys zs').
Proof.
  intros Hlen HF; revert ys zs zs' Hlen; induction xs as [|x xs IH];
    intros [|y ys] [|z zs] [|z' zs'] Hlen; simpl in *; try discriminate;
    try reflexivity.
  rewrite (HF x y z z'), (IH ys zs zs') by lia. reflexivity.
Qed.

(** Masking then iterating an array gives as many rows as the mask
    holds [True], whatever the data. *)
Lemma masked_rows_same_shape {A : Type} (m : list bool) (a a' : ndarray A) :
  shape a = shape a' ->
  match (b <- nd_mask_index m a ;; nd_iter b), (b <- nd_mask_index m a' ;; nd_iter b) with
  | Ok l, Ok l' => length l = length l'
  | Raise e, Raise e' => e = e'
  | _, _ => False
  end.
Proof.
  intros Hsh. unfold nd_mask_index. rewrite <- Hsh.
  destruct (shape a) as [|n rest]; [reflexivity |].
  destruct (length m =? n); [| reflexivity].
  cbn [bind]. unfold nd_iter; cbn [shape data].
  rewrite !length_map, !length_chunks.
  apply select_length_eq. now rewrite !length_chunks.
Qed.

Section TruthAndShape.
Context {T : Type} `{Dtype T}.

(** [c_index_ours] never reads the values of [y_true]: two ground
    truths of the same shape give the same result or the same
    exception. *)
Theorem c_index_ours_ignores_truth_values
        (legacy : bool) (y_pred y_true y_true' : ndarray T) (kw : kwargs T) :
  shape y_true = shape y_true' ->
  c_index_ours legacy y_pred y_true kw = c_index_ours legacy y_pred y_true' kw.
Proof.
  intros Hsh. unfold c_index_ours.
  destruct (kw_get (censor_flag kw)) as [cf | e]; [cbn [bind] | reflexivity].
  destruct (kw_get (survival_time kw)) as [st | e]; [cbn [bind] | reflexivity].
  destruct (mask_index _ _) as [ev_v | e]; [cbn [bind] | reflexivity].
  destruct (nd_mask_index _ y_pred) as [ev_p | e]; [cbn [bind] | reflexivity].
  destruct (nd_iter ev_p) as [rows_p | e]; [cbn [bind] | reflexivity].
  pose proof (masked_rows_same_shape (event_mask (ravel cf)) y_true y_true' Hsh) as Hrows.
  destruct (nd_mask_index (event_mask (ravel cf)) y_true) as [b | e];
    destruct (nd_mask_index (event_mask (ravel cf)) y_true') as [b' | e'];
    cbn [bind] in *.
  - destruct (nd_iter b) as [l | e]; destruct (nd_iter b') as [l' | e'];
      cbn [bind]; try contradiction.
    + erewrite (mapM_zip3_third _ _ ev_v rows_p l l' Hrows); [reflexivity |].
      intros vi yi z z'. reflexivity.
    + now subst.
  - destruct (nd_iter b); cbn [bind]; [contradiction | now subst].
  - destruct (nd_iter b'); cbn [bind]; [contradiction | now subst].
  - now subst.
Qed.

Lemma inner_sum_singles (sh : list nat) (yi : T) (ps : list T) :
  inner_sum (single sh yi) (map (single sh) ps) = Ok (row_of (map (fltb yi) ps)).
Proof.
  unfold inner_sum.
  rewrite (mapM_ok (float_lt (single sh yi)) (fun p => fltb yi (hd yi (data p))))
    by (intros a Ha; apply in_map_iff in Ha; destruct Ha as (b & <- & _); reflexivity).
  cbn [bind]. rewrite map_map; cbn [single data hd].
  reflexivity.
Qed.

Lemma masked_rows_column (m : list bool) (xs : list T) :
  (b <- nd_mask_index m (column xs) ;; nd_iter b)
  = if length m =? length xs then Ok (map (single [1]) (select m xs)) else Raise IndexError.
Proof.
  unfold nd_mask_index, column; cbn [shape data size_of fold_right Nat.mul].
  destruct (length m =? length xs); [| reflexivity].
  cbn [bind]. unfold nd_iter; cbn [shape data size_of fold_right Nat.mul].
  rewrite chunks_singletons, select_map, concat_singletons, length_map.
  now rewrite chunks_singletons, map_map.
Qed.

Lemma masked_rows_vec (m : list bool) (xs : list T) :
  (b <- nd_mask_index m (vec xs) ;; nd_iter b)
  = if length m =? length xs then Ok (map (single []) (select m xs)) else Raise IndexError.
Proof.
  unfold nd_mask_index, vec; cbn [shape data size_of fold_right Nat.mul].
  destruct (length m =? length xs); [| reflexivity].
  cbn [bind]. unfold nd_iter; cbn [shape data size_of fold_right Nat.mul].
  rewrite chunks_singletons, select_map, concat_singletons, length_map.
  now rewrite chunks_singletons, map_map.
Qed.

Lemma mapM_zip3_rows {A C D : Type} (sh sh' : list nat)
      (F F' : A * ndarray T * C -> result D) (xs : list A) (ys : list T) (zs : list C) :
  (forall x y z, F (x, single sh y, z) = F' (x, single sh' y, z)) ->
  mapM F (zip3 xs (map (single sh) ys) zs) = mapM F' (zip3 xs (map (single sh') ys) zs).
Proof.
  intros HF; revert ys zs; induction xs as [|x xs IH]; intros [|y ys] [|z zs];
    simpl; try reflexivity.
  now rewrite HF, IH.
Qed.

(** Under NumPy before 1.24, where [float] converts an array of one
    element whatever its dimension, predictions given as a column, of
    shape (n, 1), are treated like the vector of their elements:
    [c_index_ours] gives the same result or the same exception. *)
Theorem c_index_ours_column_is_vector
        (pred : list T) (y_true : ndarray T) (kw : kwargs T) :
  c_index_ours true (column pred) y_true kw = c_index_ours true (vec pred) y_true kw.
Proof.
  assert (Hbind : forall (m : list bool) (xs : list T) (a : ndarray T) (D : Type)
                         (k : list (ndarray T) -> result D),
             (ev_p <- nd_mask_index m a ;; ev_p <- nd_iter ev_p ;; k ev_p)
             = (rows <- (b <- nd_mask_index m a ;; nd_iter b) ;; k rows)).
  { intros m xs a D k. now destruct (nd_mask_index m a). }
  unfold c_index_ours.
  destruct (kw_get (censor_flag kw)) as [cf | e]; [cbn [bind] | reflexivity].
  destruct (kw_get (survival_time kw)) as [st | e]; [cbn [bind] | reflexivity].
  destruct (mask_index _ _) as [ev_v | e]; [cbn [bind] | reflexivity].
  rewrite (Hbind _ pred (column pred)), (Hbind _ pred (vec pred)).
  rewrite masked_rows_column, masked_rows_vec.
  destruct (length (event_mask (ravel cf)) =? length pred); [cbn [bind] | reflexivity].
  destruct (nd_mask_index _ y_true) as [ev_t | e]; [cbn [bind] | reflexivity].
  destruct (nd_iter ev_t) as [rows_t | e]; [cbn [bind] | reflexivity].
  erewrite (mapM_zip3_rows [1] []); [reflexivity |].
  intros vi yi yt; cbn beta iota.
  rewrite (Hbind _ pred (column pred)), (Hbind _ pred (vec pred)).
  rewrite masked_rows_column, masked_rows_vec.
  match goal with
  | |- context [if ?b then _ else _] => destruct b; [cbn [bind] | reflexivity]
  end.
  now rewrite !inner_sum_singles.
Qed.

End TruthAndShape.

Lemma c_index_ours_ignores_truth_values_witness :
  c_index_ours false (vec [0; 1; -1]%float) (vec [0; 0; 0]%float)
               (kw_survival [1; 0; 0]%Z [1; 2; 3]%float)
  = c_index_ours false (vec [0; 1; -1]%float) (vec [7; 8; 9]%float)
                 (kw_survival [1; 0; 0]%Z [1; 2; 3]%float).
Proof.
  exact (@c_index_ours_ignores_truth_values float _ false (vec [0; 1; -1]%float)
           (vec [0; 0; 0]%float) (vec [7; 8; 9]%float)
           (kw_survival [1; 0; 0]%Z [1; 2; 3]%float) eq_refl).
Defined.

(** ** Reversing the order of the predictions *)

Lemma count_true_negb (bs : list bool) :
  count_true (map negb bs) = length bs - count_true bs.
Proof.
  unfold count_true; induction bs as [|b bs IH]; [reflexivity |].
  pose proof (filter_length_le (fun b => b) bs) as Hle.
  destruct b; cbn [map negb filter length]; rewrite IH; lia.
Qed.

Lemma row_of_negb (bs : list bool) : row_of (map negb bs) = flip_summed (row_of bs).
Proof.
  destruct bs as [|b bs]; [reflexivity |].
  change (map negb (b :: bs)) with (negb b :: map negb bs).
  cbn [row_of flip_summed].
  change (negb b :: map negb bs) with (map negb (b :: bs)).
  now rewrite count_true_negb, length_map.
Qed.

Lemma flip_add_summed (a b : summed) :
  sound_sum a -> sound_sum b ->
  flip_summed (add_summed a b) = add_summed (flip_summed a) (flip_summed b).
Proof.
  destruct a, b; simpl; intros Ha Hb; try reflexivity.
  f_equal; lia.
Qed.

Lemma fold_flip_summed (rows : list summed) (acc : summed) :
  Forall sound_sum rows -> sound_sum acc ->
  fold_left add_summed (map flip_summed rows) (flip_summed acc)
  = flip_summed (fold_left add_summed rows acc).
Proof.
  intros Hrows; revert acc; induction Hrows as [|r rows Hr _ IH]; intros acc Hacc; simpl.
  - reflexivity.
  - rewrite <- flip_add_summed by assumption.
    apply IH, add_summed_sound; assumption.
Qed.

Lemma row_of_sound (bs : list bool) : sound_sum (row_of bs).
Proof.
  destruct bs as [|b bs]; [exact I |].
  split; [apply count_true_le | simpl; lia].
Qed.

Lemma outer_sum_flip (legacy : bool) (ls : list (list bool)) :
  outer_sum legacy (map row_of (map (map negb) ls))
  = (s <- outer_sum legacy (map row_of ls) ;; Ok (flip_summed s)).
Proof.
  assert (Hrows : map row_of (map (map negb) ls) = map flip_summed (map row_of ls)).
  { rewrite !map_map. apply map_ext. intros l. apply row_of_negb. }
  rewrite Hrows. unfold outer_sum.
  assert (Hp : forall s, is_pair (flip_summed s) = is_pair s) by (now intros []).
  rewrite !(forallb_map_in _ flip_summed (fun s => is_pair s))
    by (intros; apply Hp).
  rewrite (forallb_map_in _ flip_summed (fun s => negb (is_pair s)))
    by (intros; now rewrite Hp).
  match goal with
  | |- context [if ?b then _ else _] => destruct b; [cbn [bind] | reflexivity]
  end.
  f_equal. apply (@fold_flip_summed (map row_of ls) Sum0d); [| exact I].
  apply Forall_forall. intros r Hr.
  apply in_map_iff in Hr. destruct Hr as (l & <- & _). apply row_of_sound.
Qed.

Section Reversal.
Context {T : Type} `{Dtype T}.

Lemma terms_at_reversed (f : T -> T) (pred v : list T) (i : nat) :
  (forall j yi yj,
      In j (comparison_set to_float32 v i) ->
      nth_error pred i = Some yi ->
      nth_error pred j = Some yj ->
      fltb (f yi) (f yj) = negb (fltb yi yj)) ->
  terms_at to_float32 (map f pred) v i = map negb (terms_at to_float32 pred v i).
Proof.
  unfold terms_at.
  generalize (comparison_set to_float32 v i) as J.
  induction J as [|j J IH]; intros Hflip; [reflexivity |].
  cbn [flat_map]. rewrite map_app, IH by (intros; eapply Hflip; eauto; now right).
  f_equal.
  rewrite !nth_error_map.
  destruct (nth_error pred i) as [yi|] eqn:Eyi; [| reflexivity].
  destruct (nth_error pred j) as [yj|] eqn:Eyj; [| reflexivity].
  cbn [option_map map]. f_equal.
  apply (Hflip j); [now left | reflexivity | exact Eyj].
Qed.

(** Reversing the ranking complements the index.  Let [f] flip every
    comparison the index makes: for an event sample [i] and a partner
    [j] of greater time, [f pred[i] < f pred[j]] exactly when not
    [pred[i] < pred[j]] (a decreasing [f], and no such pair tied in
    prediction).  If [c_index_ours] returns on [pred], its value is a
    quotient [num / den] of counts, and on the predictions transformed
    by [f] it returns [(den - num) / den]. *)
Theorem c_index_ours_reversed
        (f : T -> T) (legacy : bool) (pred truth : list T) (d : list Z) (v : list T) (c : T) :
  length pred = length truth ->
  length d = length truth ->
  length v = length truth ->
  int8_flags d ->
  (forall i j yi yj,
      In i (event_indices d) ->
      In j (comparison_set to_float32 v i) ->
      nth_error pred i = Some yi ->
      nth_error pred j = Some yj ->
      fltb (f yi) (f yj) = negb (fltb yi yj)) ->
  c_index_ours legacy (vec pred) (vec truth) (kw_survival d v) = Ok c ->
  exists num den : nat,
    num <= den /\
    0 < den /\
    c = fdiv (of_count num) (of_count den) /\
    c_index_ours legacy (vec (map f pred)) (vec truth) (kw_survival d v)
    = Ok (fdiv (of_count (den - num)) (of_count den)).
Proof.
  intros Hp Hd Hv Hflags Hflip.
  rewrite !c_index_ours_vec by (rewrite ?length_map; assumption).
  assert (Hrows : map (fun i => row_of (terms_at to_float32 (map f pred) v i)) (event_indices d)
                  = map row_of (map (map negb)
                                    (map (terms_at to_float32 pred v) (event_indices d)))).
  { rewrite !map_map. apply map_ext_in. intros i Hi.
    rewrite terms_at_reversed; [reflexivity |].
    intros j yi yj Hj. now apply Hflip. }
  rewrite Hrows, outer_sum_flip, map_map.
  destruct (outer_sum legacy (map (fun i => row_of (terms_at to_float32 pred v i))
                                  (event_indices d))) as [s | e] eqn:Es;
    [cbn [bind] | discriminate].
  assert (Hs : sound_sum s).
  { unfold outer_sum in Es.
    match type of Es with
    | (if ?b then _ else _) = _ => destruct b; [| discriminate]
    end.
    injection Es as <-. apply fold_summed_sound; [| exact I].
    apply Forall_forall. intros r Hr.
    apply in_map_iff in Hr. destruct Hr as (i & <- & _). apply row_of_sound. }
  destruct s as [|num den]; [discriminate |].
  intros Hc. exists num, den. destruct Hs as [Hle Hpos].
  split; [exact Hle |]. split; [exact Hpos |]. split.
  - congruence.
  - reflexivity.
Qed.

End Reversal.

(** On binary64 numbers, with the predictions negated: 1/3 becomes
    2/3. *)
Lemma c_index_ours_reversed_witness :
  exists num den : nat,
    num <= den /\
    0 < den /\
    (1 / 3)%float = fdiv (of_count num) (of_count den) /\
    c_index_ours false (vec (map PrimFloat.opp [0; 1; -1; -2]%float)) (vec [0; 0; 0; 0]%float)
                 (kw_survival [1; 0; 0; 0]%Z [1; 2; 3; 4]%float)
    = Ok (fdiv (of_count (den - num)) (of_count den)).
Proof.
  apply (@c_index_ours_reversed float _ PrimFloat.opp false [0; 1; -1; -2]%float
           [0; 0; 0; 0]%float [1; 0; 0; 0]%Z [1; 2; 3; 4]%float (1 / 3)%float
           eq_refl eq_refl eq_refl).
  - repeat constructor; cbn; lia.
  - intros i j yi yj Hi Hj.
    vm_compute in Hi. destruct Hi as [<- | []].
    vm_compute in Hj. destruct Hj as [<- | [<- | [<- | []]]];
      cbn [nth_error]; intros [= <-] [= <-]; vm_compute; reflexivity.
  - vm_compute; reflexivity.
Defined.

